(** * Pooling layer of keras-js: shape derivation, padding and windowed reduction

    A shallow embedding of [_Pooling2D] (constructor, [_calcOutputShape],
    [_padInput], [call]) and of the base [Layer] it extends, together with
    the part of the [ndarray] / [ndarray-ops] interface the layer is built on.

    - Integers of the source (shapes, strides, indices) are [Z].  The source
      computes [Math.floor(a / b)] on doubles; for a positive divisor and
      magnitudes below 2^53 this is the floor division [a / b] of [Z].
    - Tensor elements are kept abstract: the arithmetic of the element type
      is the interface [Number], so every statement holds whatever the
      rounding of sums and quotients is.
    - A [Tensor] object is a mutable cell holding an [ndarray] view; a view
      addresses a flat typed array through an offset and three strides.
      Both kinds of object live in a [heap], so aliasing and replacement of
      the backing storage are visible. *)

From Stdlib Require Import ZArith QArith Lia.
From stdpp Require Import base list strings.

Local Open Scope Z_scope.

(** ** Element arithmetic *)

(** What the layer needs of JavaScript numbers: the constants [0],
    [-Infinity] and [NaN] (which is what reading outside a typed array
    yields once stored or used in arithmetic), addition, the comparison [>],
    division and the injection of integers. *)
Class Number (num : Type) := {
  zero : num;
  neg_inf : num;
  nan : num;
  nadd : num -> num -> num;
  ngt : num -> num -> bool;
  ndiv : num -> num -> num;
  of_Z : Z -> num
}.

(** Exact rationals extended with the two infinities and NaN: the instance
    used to run the layer on concrete tensors. *)
Inductive xnum : Type :=
| Fin (q : Q)
| NegInf
| PosInf
| NaN.

Definition xadd (a b : xnum) : xnum :=
  match a, b with
  | NaN, _ | _, NaN => NaN
  | Fin p, Fin q => Fin (Qred (Qplus p q))
  | NegInf, PosInf | PosInf, NegInf => NaN
  | NegInf, _ | _, NegInf => NegInf
  | PosInf, _ | _, PosInf => PosInf
  end.

Definition xgt (a b : xnum) : bool :=
  match a, b with
  | NaN, _ | _, NaN => false
  | Fin p, Fin q => negb (Qle_bool p q)
  | PosInf, PosInf => false
  | PosInf, _ => true
  | _, PosInf => false
  | NegInf, _ => false
  | Fin _, NegInf => true
  end.

Definition xdiv (a b : xnum) : xnum :=
  match a, b with
  | NaN, _ | _, NaN => NaN
  | Fin p, Fin q =>
      if Qeq_bool q 0 then
        (if Qeq_bool p 0 then NaN
         else if Qle_bool 0 p then PosInf else NegInf)
      else Fin (Qred (Qdiv p q))
  | Fin _, _ => Fin 0
  | _, (NegInf | PosInf) => NaN
  | PosInf, Fin q => if Qle_bool 0 q then PosInf else NegInf
  | NegInf, Fin q => if Qle_bool 0 q then NegInf else PosInf
  end.

#[export] Instance xnum_Number : Number xnum := {|
  zero := Fin 0;
  neg_inf := NegInf;
  nan := NaN;
  nadd := xadd;
  ngt := xgt;
  ndiv := xdiv;
  of_Z := fun z => Fin (inject_Z z)
|}.

(** ** Errors and outcomes *)

Inductive js_error : Type :=
| Error (msg : string)
| TypeError (msg : string)
| RangeError (msg : string)
| ReferenceError (msg : string).

(** A reference to a typed array, and a reference to a [Tensor] object. *)
Definition loc := nat.
Definition oref := nat.

(** An [ndarray] view of dimension 3: backing array, shape, strides, offset. *)
Record ndarray : Type := NdArray {
  nd_data : loc;
  nd_shape : Z * Z * Z;
  nd_stride : Z * Z * Z;
  nd_offset : Z
}.

(** The 2-dimensional view produced by [pick(null, null, c)]. *)
Record ndarray2 : Type := NdArray2 {
  nd2_data : loc;
  nd2_shape : Z * Z;
  nd2_stride : Z * Z;
  nd2_offset : Z
}.

Section Model.

Context {num : Type} `{Number num}.

(** The store: typed arrays, and the [tensor] field of every [Tensor]
    object. *)
Record heap : Type := Heap {
  bufs : list (list num);
  objs : list ndarray
}.

(** The result of running a method on receiver state [T]: a value, or a
    thrown error, each with the receiver and the store as they stand at
    that point; or no result within the fuel given to the loops. *)
Inductive outcome (T A : Type) : Type :=
| Return (a : A) (this : T) (h : heap)
| Throw (e : js_error) (this : T) (h : heap)
| OutOfFuel.

Arguments Return {T A} a this h.
Arguments Throw {T A} e this h.
Arguments OutOfFuel {T A}.

Definition M (T A : Type) : Type := T -> heap -> outcome T A.

Definition ret {T A} (a : A) : M T A := fun this h => Return a this h.

Definition bind {T A B} (m : M T A) (k : A -> M T B) : M T B :=
  fun this h =>
    match m this h with
    | Return a this' h' => k a this' h'
    | Throw e this' h' => Throw e this' h'
    | OutOfFuel => OutOfFuel
    end.

Definition throw {T A} (e : js_error) : M T A := fun this h => Throw e this h.

Definition get_this {T} : M T T := fun this h => Return this this h.

Definition set_this {T} (this' : T) : M T unit := fun _ h => Return tt this' h.

Notation "x <- m ;; k" := (bind m (fun x => k))
  (at level 100, m at next level, right associativity).
Notation "m ;; k" := (bind m (fun _ => k))
  (at level 100, right associativity).

(** Running a store transformer, and a fuelled one. *)
Definition modify_heap {T} (f : heap -> heap) : M T unit :=
  fun this h => Return tt this (f h).

Definition run_fuelled {T} (f : heap -> option heap) : M T unit :=
  fun this h =>
    match f h with
    | Some h' => Return tt this h'
    | None => OutOfFuel
    end.

(** ** The ndarray interface *)

(** Position in the typed array of the element at index [(i, j, c)]. *)
Definition flat (a : ndarray) (i j c : Z) : Z :=
  let '(s0, s1, s2) := nd_stride a in
  nd_offset a + s0 * i + s1 * j + s2 * c.

(** Typed arrays: reading outside the array yields [undefined], which is
    NaN as a number; writing outside is ignored. *)
Definition buf_get (b : list num) (k : Z) : num :=
  if k <? 0 then nan else default nan (b !! Z.to_nat k).

Definition buf_set (b : list num) (k : Z) (v : num) : list num :=
  if k <? 0 then b else <[Z.to_nat k := v]> b.

Definition nd_get (h : heap) (a : ndarray) (i j c : Z) : num :=
  match bufs h !! nd_data a with
  | Some b => buf_get b (flat a i j c)
  | None => nan
  end.

Definition nd_set (h : heap) (a : ndarray) (i j c : Z) (v : num) : heap :=
  Heap (alter (fun b => buf_set b (flat a i j c) v) (nd_data a) (bufs h))
       (objs h).

(** [a.hi(i0, i1, i2)]: the view cut to the given upper bounds. *)
Definition nd_hi (a : ndarray) (i0 i1 i2 : Z) : ndarray :=
  let '(d0, d1, d2) := nd_shape a in
  NdArray (nd_data a)
          (if i0 <? 0 then d0 else i0,
           if i1 <? 0 then d1 else i1,
           if i2 <? 0 then d2 else i2)
          (nd_stride a) (nd_offset a).

(** [a.lo(i0, i1, i2)]: the view shifted to start at the given indices. *)
Definition nd_lo (a : ndarray) (i0 i1 i2 : Z) : ndarray :=
  let '(d0, d1, d2) := nd_shape a in
  let '(s0, s1, s2) := nd_stride a in
  NdArray (nd_data a)
          (if 0 <=? i0 then d0 - i0 else d0,
           if 0 <=? i1 then d1 - i1 else d1,
           if 0 <=? i2 then d2 - i2 else d2)
          (nd_stride a)
          (nd_offset a
           + (if 0 <=? i0 then s0 * i0 else 0)
           + (if 0 <=? i1 then s1 * i1 else 0)
           + (if 0 <=? i2 then s2 * i2 else 0)).

Definition sel3 (s : Z * Z * Z) (k : nat) : Z :=
  let '(a, b, c) := s in
  match k with
  | O => a
  | S O => b
  | _ => c
  end.

(** [a.transpose(k0, k1, k2)]: axis [d] of the result is axis [kd] of [a]. *)
Definition nd_transpose (a : ndarray) (k0 k1 k2 : nat) : ndarray :=
  NdArray (nd_data a)
          (sel3 (nd_shape a) k0, sel3 (nd_shape a) k1, sel3 (nd_shape a) k2)
          (sel3 (nd_stride a) k0, sel3 (nd_stride a) k1, sel3 (nd_stride a) k2)
          (nd_offset a).

(** [a.pick(null, null, c)] for a channel index [c >= 0]. *)
Definition nd_pick2 (a : ndarray) (c : Z) : ndarray2 :=
  let '(d0, d1, _) := nd_shape a in
  let '(s0, s1, s2) := nd_stride a in
  NdArray2 (nd_data a) (d0, d1) (s0, s1) (nd_offset a + s2 * c).

Definition nd2_get (h : heap) (a : ndarray2) (i j : Z) : num :=
  let '(s0, s1) := nd2_stride a in
  match bufs h !! nd2_data a with
  | Some b => buf_get b (nd2_offset a + s0 * i + s1 * j)
  | None => nan
  end.

(** Index sets of a shape, in row-major order. *)
Definition indices3 (shape : Z * Z * Z) : list (Z * Z * Z) :=
  let '(d0, d1, d2) := shape in
  i ← seqZ 0 d0; j ← seqZ 0 d1; c ← seqZ 0 d2; [(i, j, c)].

Definition indices2 (shape : Z * Z) : list (Z * Z) :=
  let '(d0, d1) := shape in
  i ← seqZ 0 d0; j ← seqZ 0 d1; [(i, j)].

(** [ops.assigns(a, v)]: every element of the view becomes [v]. *)
Definition ops_assigns (a : ndarray) (v : num) (h : heap) : heap :=
  foldl (fun h '(i, j, c) => nd_set h a i j c v) h (indices3 (nd_shape a)).

(** [ops.assign(dst, src)]: element-wise copy over the shape of [dst]. *)
Definition ops_assign (dst src : ndarray) (h : heap) : heap :=
  foldl (fun h '(i, j, c) => nd_set h dst i j c (nd_get h src i j c))
        h (indices3 (nd_shape dst)).

(** [ops.sum(a)]: accumulation from [0]. *)
Definition ops_sum (h : heap) (a : ndarray2) : num :=
  foldl (fun s '(i, j) => nadd s (nd2_get h a i j))
        zero (indices2 (nd2_shape a)).

(** [ops.sup(a)]: running maximum from [-Infinity]. *)
Definition ops_sup (h : heap) (a : ndarray2) : num :=
  foldl (fun s '(i, j) =>
           let v := nd2_get h a i j in if ngt v s then v else s)
        neg_inf (indices2 (nd2_shape a)).

(** ** Tensor objects *)

(** [x.tensor]; a reference that is no object raises a [TypeError]. *)
Definition tensor_of {T} (x : oref) : M T ndarray :=
  fun this h =>
    match objs h !! x with
    | Some t => Return t this h
    | None => Throw (TypeError "Cannot read property 'tensor'") this h
    end.

(** [x.tensor = t]. *)
Definition set_tensor {T} (x : oref) (t : ndarray) : M T unit :=
  fun this h =>
    match objs h !! x with
    | Some _ => Return tt this (Heap (bufs h) (<[x := t]> (objs h)))
    | None => Throw (TypeError "Cannot set property 'tensor'") this h
    end.

(** Modelled from the spec: the [Tensor] container (its file is not part of
    the sources at hand).  [new Tensor([], shape)] allocates a typed array
    of [d0 * d1 * d2] elements, all zero, and makes a new object whose
    [tensor] is the dense view [ndarray(array, shape)] of it, in row-major
    layout.  The allocation raises a [RangeError] when the length is
    negative.  The offset is the one [ndarray] gives a view built without
    one: zero, moved by [(extent - 1) * stride] for every negative stride. *)
Definition new_Tensor {T} (shape : Z * Z * Z) : M T oref :=
  fun this h =>
    let '(d0, d1, d2) := shape in
    if d0 * d1 * d2 <? 0 then
      Throw (RangeError "Invalid typed array length") this h
    else
      let offset :=
        (if d1 * d2 <? 0 then - ((d0 - 1) * (d1 * d2)) else 0)
        + (if d2 <? 0 then - ((d1 - 1) * d2) else 0) in
      let t := NdArray (length (bufs h)) shape (d1 * d2, d2, 1) offset in
      Return (length (objs h)) this
             (Heap (bufs h ++ [replicate (Z.to_nat (d0 * d1 * d2)) zero])
                   (objs h ++ [t])).

(** ** The base layer *)

Record Layer : Type := mkLayer {
  layerClass : string;
  name : option string;
  params : list string;
  weights : list (string * oref);
  _useWeblas : bool
}.

(** The attribute object handed to a constructor.  An absent attribute is
    [None]; [strides] may also be present and [null]. *)
Record Attrs : Type := mkAttrs {
  attr_name : option string;
  attr_gpu : bool;
  attr_poolSize : option (Z * Z);
  attr_strides : option (option (Z * Z));
  attr_borderMode : option string;
  attr_dimOrdering : option string;
  attr_poolingFunc : option string
}.

(** [weblas] is the truth value of the global of that name, where it is
    declared.  Where it is not, [attrs.gpu && weblas] raises a
    [ReferenceError] when [attrs.gpu] is truthy and no layer is built; when
    [attrs.gpu] is falsy the global is not read, and the layer is the one
    given here for either truth value. *)
Definition Layer_constructor (weblas : bool) (attrs : Attrs) : Layer :=
  {| layerClass := "Layer";
     name := attr_name attrs;
     params := [];
     weights := [];
     _useWeblas := if attr_gpu attrs && weblas then true else false |}.

(** [Layer.call], inherited by every layer that does not override it. *)
Definition Layer_call {T} (x : oref) : M T oref := ret x.

(** ** The pooling layer *)

Record _Pooling2D : Type := mkPooling2D {
  super : Layer;
  poolSize : Z * Z;
  strides : Z * Z;
  borderMode : string;
  dimOrdering : string;
  poolingFunc : string;
  outputShape : option (Z * Z * Z);
  inputPadding : option (Z * Z * Z * Z)
}.

Definition set_layerClass (l : Layer) (c : string) : Layer :=
  mkLayer c (name l) (params l) (weights l) (_useWeblas l).

Definition _Pooling2D_constructor (weblas : bool) (attrs : Attrs) : _Pooling2D :=
  let super := set_layerClass (Layer_constructor weblas attrs) "_Pooling2D" in
  let poolSize := default (2, 2) (attr_poolSize attrs) in
  let strides := default None (attr_strides attrs) in
  let borderMode := default "valid"%string (attr_borderMode attrs) in
  let dimOrdering := default "tf"%string (attr_dimOrdering attrs) in
  {| super := super;
     poolSize := poolSize;
     strides := match strides with None => poolSize | Some s => s end;
     borderMode := borderMode;
     dimOrdering := dimOrdering;
     poolingFunc := "max";
     outputShape := None;
     inputPadding := None |}.

(** What a concrete pooling variant does after [super(attrs)]: it assigns
    [this.poolingFunc]. *)
Definition set_poolingFunc (this : _Pooling2D) (f : string) : _Pooling2D :=
  mkPooling2D (super this) (poolSize this) (strides this) (borderMode this)
              (dimOrdering this) f (outputShape this) (inputPadding this).

Definition set_dimOrdering (this : _Pooling2D) (d : string) : _Pooling2D :=
  mkPooling2D (super this) (poolSize this) (strides this) (borderMode this)
              d (poolingFunc this) (outputShape this) (inputPadding this).

Definition set_outputShape_inputPadding (this : _Pooling2D)
    (s : Z * Z * Z) (p : Z * Z * Z * Z) : _Pooling2D :=
  mkPooling2D (super this) (poolSize this) (strides this) (borderMode this)
              (dimOrdering this) (poolingFunc this) (Some s) (Some p).

(** [Math.floor(a / b)]. *)
Definition floor_div (a b : Z) : Z := a / b.

Definition _calcOutputShape (x : oref) : M _Pooling2D unit :=
  t <- tensor_of x ;;
  this <- get_this ;;
  let '(inputRows, inputCols, inputChannels) := nd_shape t in
  let '(nbRow, nbCol) := poolSize this in
  let '(strides0, strides1) := strides this in
  let same := String.eqb (borderMode this) "same" in
  let outputRows :=
    if same then floor_div (inputRows + strides0 - 1) strides0
    else floor_div (inputRows - nbRow + strides0) strides0 in
  let outputCols :=
    if same then floor_div (inputCols + strides1 - 1) strides1
    else floor_div (inputCols - nbCol + strides1) strides1 in
  let paddingRow :=
    if same then Z.max 0 ((outputRows - 1) * strides0 + nbRow - inputRows)
    else 0 in
  let paddingCol :=
    if same then Z.max 0 ((outputCols - 1) * strides1 + nbCol - inputCols)
    else 0 in
  let paddingRowBefore := floor_div paddingRow 2 in
  let paddingRowAfter := paddingRow - paddingRowBefore in
  let paddingColBefore := floor_div paddingCol 2 in
  let paddingColAfter := paddingCol - paddingColBefore in
  set_this (set_outputShape_inputPadding this
              (outputRows, outputCols, inputChannels)
              (paddingRowBefore, paddingRowAfter,
               paddingColBefore, paddingColAfter)).

Definition _padInput (x : oref) : M _Pooling2D oref :=
  this <- get_this ;;
  if String.eqb (borderMode this) "same" then
    t <- tensor_of x ;;
    let '(inputRows, inputCols, inputChannels) := nd_shape t in
    match inputPadding this with
    | None => throw (TypeError "undefined is not iterable")
    | Some (paddingRowBefore, paddingRowAfter,
            paddingColBefore, paddingColAfter) =>
        let newRows := inputRows + paddingRowBefore + paddingRowAfter in
        let newCols := inputCols + paddingColBefore + paddingColAfter in
        _x <- new_Tensor (newRows, newCols, inputChannels) ;;
        _xt <- tensor_of _x ;;
        (if String.eqb (poolingFunc this) "max"
         then modify_heap (ops_assigns _xt neg_inf)
         else ret tt) ;;
        modify_heap
          (ops_assign
             (nd_lo (nd_hi _xt (inputRows + paddingRowBefore)
                               (inputCols + paddingColBefore) inputChannels)
                    paddingRowBefore paddingColBefore 0)
             t) ;;
        set_tensor x _xt ;;
        ret x
    end
  else ret x.

(** The loop header [for (let i = 0, _i = 0; i <= bound; i += step, _i++)]:
    the body runs on the store, and may itself contain such a loop. *)
Fixpoint for_loop (fuel : nat) (i _i bound step : Z)
    (body : Z -> Z -> heap -> option heap) (h : heap) : option heap :=
  match fuel with
  | O => None
  | S fuel' =>
      if i <=? bound then
        match body i _i h with
        | Some h' => for_loop fuel' (i + step) (_i + 1) bound step body h'
        | None => None
        end
      else Some h
  end.

(** The pairs [(i, _i)] on which that header runs its body. *)
Fixpoint loop_positions (fuel : nat) (i _i bound step : Z)
    : option (list (Z * Z)) :=
  match fuel with
  | O => None
  | S fuel' =>
      if i <=? bound then
        cons (i, _i) <$> loop_positions fuel' (i + step) (_i + 1) bound step
      else Some []
  end.

(** Lines 125-130 and 133-138: how many rows (columns) of the window at
    [i] are counted as padding. *)
Definition nbInPadding (i nb input paddingBefore paddingAfter : Z) : Z :=
  if i <? paddingBefore then paddingBefore - i
  else if (i + nb) >? (input - paddingAfter)
       then (i + nb) - (input - paddingAfter)
       else 0.

(** Lines 140-148: the window at [(i, j)] is copied to [patch] and reduced,
    channel by channel, into [y] at [(_i, _j)]. *)
Definition pool_window (this : _Pooling2D) (xt yt pt : ndarray)
    (nbRowInPadding nbColInPadding i _i j _j : Z) (h : heap) : heap :=
  let '(_, _, inputChannels) := nd_shape xt in
  let '(nbRow, nbCol) := poolSize this in
  let h1 :=
    ops_assign pt
      (nd_lo (nd_hi xt (i + nbRow) (j + nbCol) inputChannels) i j 0) h in
  foldl
    (fun h c =>
       if String.eqb (poolingFunc this) "max" then
         nd_set h yt _i _j c (ops_sup h (nd_pick2 pt c))
       else if String.eqb (poolingFunc this) "average" then
         let nbCellsEffective :=
           (nbRow - nbRowInPadding) * (nbCol - nbColInPadding) in
         nd_set h yt _i _j c
                (ndiv (ops_sum h (nd_pick2 pt c)) (of_Z nbCellsEffective))
       else h)
    h1 (seqZ 0 inputChannels).

(** Lines 124-150: the loop nest.  [x.tensor], [y.tensor] and
    [patch.tensor] are not reassigned inside it, so the views are read
    once. *)
Definition pool_loops (fuel : nat) (this : _Pooling2D) (xt yt pt : ndarray)
    (h : heap) : option heap :=
  let '(inputRows, inputCols, _) := nd_shape xt in
  let '(nbRow, nbCol) := poolSize this in
  let '(strides0, strides1) := strides this in
  let '(paddingRowBefore, paddingRowAfter,
        paddingColBefore, paddingColAfter) :=
    default (0, 0, 0, 0) (inputPadding this) in
  for_loop fuel 0 0 (inputRows - nbRow) strides0
    (fun i _i =>
       let nbRowInPadding :=
         nbInPadding i nbRow inputRows paddingRowBefore paddingRowAfter in
       for_loop fuel 0 0 (inputCols - nbCol) strides1
         (fun j _j =>
            let nbColInPadding :=
              nbInPadding j nbCol inputCols paddingColBefore paddingColAfter in
            fun h =>
              Some (pool_window this xt yt pt
                      nbRowInPadding nbColInPadding i _i j _j h)))
    h.

(** The window positions [(i, _i, j, _j)] of the loop nest, in the order in
    which it visits them. *)
Definition window_positions (fuel : nat) (this : _Pooling2D) (xt : ndarray)
    : option (list (Z * Z * Z * Z)) :=
  let '(inputRows, inputCols, _) := nd_shape xt in
  let '(nbRow, nbCol) := poolSize this in
  let '(strides0, strides1) := strides this in
  rows ← loop_positions fuel 0 0 (inputRows - nbRow) strides0;
  cols ← loop_positions fuel 0 0 (inputCols - nbCol) strides1;
  Some (r ← rows; c ← cols; [(r.1, r.2, c.1, c.2)]).

(** What the loop nest does at one window position. *)
Definition pool_window_at (this : _Pooling2D) (xt yt pt : ndarray)
    (p : Z * Z * Z * Z) (h : heap) : heap :=
  let '(i, _i, j, _j) := p in
  let '(inputRows, inputCols, _) := nd_shape xt in
  let '(nbRow, nbCol) := poolSize this in
  let '(paddingRowBefore, paddingRowAfter,
        paddingColBefore, paddingColAfter) :=
    default (0, 0, 0, 0) (inputPadding this) in
  pool_window this xt yt pt
    (nbInPadding i nbRow inputRows paddingRowBefore paddingRowAfter)
    (nbInPadding j nbCol inputCols paddingColBefore paddingColAfter)
    i _i j _j h.

Definition call (fuel : nat) (x : oref) : M _Pooling2D oref :=
  this <- get_this ;;
  if negb (String.eqb (poolingFunc this) "max")
     && negb (String.eqb (poolingFunc this) "average")
  then
    throw (Error "[pooling._Pooling2D] pooling function must be max or average.")
  else
    (if String.eqb (dimOrdering this) "th"
     then t <- tensor_of x ;; set_tensor x (nd_transpose t 1 2 0)
     else ret tt) ;;
    _calcOutputShape x ;;
    _padInput x ;;
    xt <- tensor_of x ;;
    this <- get_this ;;
    match outputShape this, inputPadding this with
    | Some shape, Some _ =>
        let '(_, _, inputChannels) := nd_shape xt in
        let '(nbRow, nbCol) := poolSize this in
        y <- new_Tensor shape ;;
        patch <- new_Tensor (nbRow, nbCol, inputChannels) ;;
        yt <- tensor_of y ;;
        pt <- tensor_of patch ;;
        run_fuelled (pool_loops fuel this xt yt pt) ;;
        set_tensor x yt ;;
        (if String.eqb (dimOrdering this) "th"
         then t <- tensor_of x ;; set_tensor x (nd_transpose t 2 0 1)
         else ret tt) ;;
        ret x
    | _, _ => throw (TypeError "undefined is not iterable")
    end.

End Model.

Arguments heap num : clear implicits.
Arguments outcome num T A : clear implicits.
Arguments Return {num T A} a this h.
Arguments Throw {num T A} e this h.
Arguments OutOfFuel {num T A}.

Notation "x <- m ;; k" := (bind m (fun x => k))
  (at level 100, m at next level, right associativity).
Notation "m ;; k" := (bind m (fun _ => k))
  (at level 100, right associativity).

(** The error raised by [call] on a reducer it does not know. *)
Definition InvalidConfiguration : js_error :=
  Error "[pooling._Pooling2D] pooling function must be max or average.".

(** A store holding one tensor object, reference [0], over one typed array
    in row-major layout. *)
Definition single_tensor {num} (shape : Z * Z * Z) (data : list num) : heap num :=
  let '(d0, d1, d2) := shape in
  Heap [data] [NdArray 0%nat shape (d1 * d2, d2, 1) 0].

(** A layer as the constructor builds it from a window, a stride and a
    border mode; and the same layer in its average-pooling variant. *)
Definition pooling_layer (window stride : Z * Z) (mode : string) : _Pooling2D :=
  _Pooling2D_constructor false
    (mkAttrs None false (Some window) (Some (Some stride)) (Some mode) None None).

Definition average_layer (window stride : Z * Z) (mode : string) : _Pooling2D :=
  set_poolingFunc (pooling_layer window stride mode) "average".

(** Following the words of the specification: the full overlap of the
    window range [[i, i + nb)] with the band of [paddingBefore] leading
    cells and the band of [paddingAfter] trailing cells of an extent of
    [input] cells. *)
Definition padding_overlap (i nb input paddingBefore paddingAfter : Z) : Z :=
  Z.max 0 (Z.min (i + nb) paddingBefore - Z.max i 0)
  + Z.max 0 (Z.min (i + nb) input - Z.max i (input - paddingAfter)).

(** A 5 x 5 input of one channel holding 0..24 in row-major order, and the
    view its tensor object has of it. *)
Definition ramp_view : ndarray := NdArray 0%nat (5, 5, 1) (5, 1, 1) 0.

Definition ramp_input : heap xnum :=
  single_tensor (5, 5, 1) (Fin ∘ inject_Z <$> seqZ 0 25).

(** A strip of one row, five columns and one channel holding 0..4, in
    channels-last layout (1, 5, 1) and in channels-first layout (1, 1, 5). *)
Definition strip_input : heap xnum :=
  single_tensor (1, 5, 1) (Fin ∘ inject_Z <$> seqZ 0 5).

Definition strip_input_th : heap xnum :=
  single_tensor (1, 1, 5) (Fin ∘ inject_Z <$> seqZ 0 5).

(** ** Reading the result of a call *)

Section Reading.

Context {num : Type} `{Number num}.

(** The running maximum and the running sum of [ops.sup] and [ops.sum], on a
    list of values. *)
Definition nsup (l : list num) : num :=
  foldl (fun s v => if ngt v s then v else s) neg_inf l.

Definition nsum (l : list num) : num := foldl nadd zero l.

(** Lines 142-147: what is stored for a window whose values on a channel
    are [vals], for the reducers ["max"] and ["average"]. *)
Definition cell_value (this : _Pooling2D)
    (nbRowInPadding nbColInPadding : Z) (vals : list num) : num :=
  let '(nbRow, nbCol) := poolSize this in
  if String.eqb (poolingFunc this) "max" then nsup vals
  else ndiv (nsum vals)
            (of_Z ((nbRow - nbRowInPadding) * (nbCol - nbColInPadding))).

(** The element at [(i, j, c)] of the tensor [t] padded by [rowBefore] rows
    and [colBefore] columns of [fill] (and as many after as needed). *)
Definition padded_get (h : heap num) (t : ndarray) (fill : num)
    (rowBefore colBefore : Z) (i j c : Z) : num :=
  let '(rows, cols, _) := nd_shape t in
  if (rowBefore <=? i) && (i <? rowBefore + rows)
     && (colBefore <=? j) && (j <? colBefore + cols)
  then nd_get h t (i - rowBefore) (j - colBefore) c
  else fill.

(** The values of the window of size [nbRow] by [nbCol] at [(i, j)] on
    channel [c] of the padded tensor, row by row. *)
Definition padded_window (h : heap num) (t : ndarray) (fill : num)
    (rowBefore colBefore : Z) (nbRow nbCol : Z) (i j c : Z) : list num :=
  (fun '(a, b) => padded_get h t fill rowBefore colBefore (i + a) (j + b) c)
    <$> indices2 (nbRow, nbCol).

(** The values of that window that come from the tensor itself. *)
Definition genuine_window (h : heap num) (t : ndarray)
    (rowBefore colBefore : Z) (nbRow nbCol : Z) (i j c : Z) : list num :=
  let '(rows, cols, _) := nd_shape t in
  (fun '(a, b) => nd_get h t (i + a - rowBefore) (j + b - colBefore) c)
    <$> filter (fun '(a, b) =>
                  rowBefore <= i + a < rowBefore + rows
                  /\ colBefore <= j + b < colBefore + cols)
               (indices2 (nbRow, nbCol)).

(** ** Switching the compute backend *)

Definition set_useWeblas (l : Layer) (b : bool) : Layer :=
  mkLayer (layerClass l) (name l) (params l) (weights l) b.

(** [Layer.toggleGpu(mode)]; [mode] is [None] when the argument is
    [undefined].  [weblas] is the global of that name, which the file
    neither imports nor declares: [None] where it is not declared, so that
    reading it raises a [ReferenceError], and its truth value otherwise.
    [newMode && weblas] reads it only when [newMode] is truthy. *)
Definition toggleGpu (weblas : option bool) (mode : option bool)
    : M (num := num) Layer unit :=
  this <- get_this ;;
  let newMode := match mode with
                 | None => negb (_useWeblas this)
                 | Some m => m
                 end in
  if newMode then
    match weblas with
    | None => throw (ReferenceError "weblas is not defined")
    | Some w =>
        if w
        then set_this (set_useWeblas this true)
        else set_this (set_useWeblas this false)
    end
  else set_this (set_useWeblas this false).

End Reading.

(** * Properties *)

Section Properties.

Context {num : Type} `{Number num}.

Implicit Types (h : heap num) (this : _Pooling2D) (t : ndarray) (x : oref).

(** ** The base layer and the constructor *)

(** C10: [Layer.call] returns the very tensor object it is given, and
    leaves the layer and the store as they are. *)
Theorem Layer_call_identity (T : Type) (l : T) h x :
  Layer_call x l h = Return x l h.
Proof. reflexivity. Qed.

Ltac run_step :=
  match goal with
  | |- context [match ?o with Some _ => _ | None => _ end] =>
      destruct o eqn:?
  | |- context [let '(_, _) := ?p in _] => destruct p eqn:?
  | |- context [if ?b then _ else _] => destruct b eqn:?
  end.

(** A known reducer never makes [call] throw an [Error]: the only other
    throws are [TypeError]s on a reference that is no tensor object and the
    [RangeError] of a tensor of negative size. *)
Lemma call_known_reducer_no_Error fuel x this h msg this' h' :
  poolingFunc this = "max"%string \/ poolingFunc this = "average"%string ->
  call fuel x this h <> Throw (Error msg) this' h'.
Proof.
  intros Hf. unfold call, bind at 1, get_this.
  assert (negb (String.eqb (poolingFunc this) "max")
          && negb (String.eqb (poolingFunc this) "average") = false) as ->.
  { destruct Hf as [-> | ->]; reflexivity. }
  unfold _calcOutputShape, _padInput, bind, get_this, set_this, tensor_of,
    set_tensor, new_Tensor, modify_heap, run_fuelled, ret, throw.
  repeat (simpl; first [discriminate | run_step]).
Qed.

(** C7: [call] throws the configuration error exactly when the reducer is
    neither ["max"] nor ["average"], and then it throws at once: the layer
    and the store are those it was called with. *)
Theorem call_InvalidConfiguration_iff fuel x this h :
  ((exists msg this' h', call fuel x this h = Throw (Error msg) this' h')
   <-> (poolingFunc this <> "max"%string /\ poolingFunc this <> "average"%string))
  /\ (poolingFunc this <> "max"%string ->
      poolingFunc this <> "average"%string ->
      call fuel x this h = Throw InvalidConfiguration this h).
Proof.
  assert (Himm : poolingFunc this <> "max"%string ->
                 poolingFunc this <> "average"%string ->
                 call fuel x this h = Throw InvalidConfiguration this h).
  { intros Hm Ha. unfold call, bind, get_this.
    apply String.eqb_neq in Hm, Ha. rewrite Hm, Ha. reflexivity. }
  split; [split|exact Himm].
  - intros (msg & this' & h' & Hc).
    destruct (String.eqb (poolingFunc this) "max") eqn:Em.
    { apply String.eqb_eq in Em.
      exfalso. eapply call_known_reducer_no_Error; eauto. }
    destruct (String.eqb (poolingFunc this) "average") eqn:Ea.
    { apply String.eqb_eq in Ea.
      exfalso. eapply call_known_reducer_no_Error; eauto. }
    split; apply String.eqb_neq; assumption.
  - intros [Hm Ha]. eexists _, this, h. apply Himm; assumption.
Qed.

(** C9: whatever the attributes, a layer built by the constructor has the
    reducer ["max"], so [call] on it never throws the configuration error. *)
Theorem constructor_reducer_is_max (weblas : bool) (attrs : Attrs) :
  poolingFunc (_Pooling2D_constructor weblas attrs) = "max"%string
  /\ forall fuel x h msg this' h',
       call fuel x (_Pooling2D_constructor weblas attrs) h
       <> Throw (Error msg) this' h'.
Proof.
  split; [reflexivity|].
  intros. apply call_known_reducer_no_Error. left. reflexivity.
Qed.

(** ** Shape and padding derivation *)

(** What [_calcOutputShape] does on a tensor object: it reads the shape and
    assigns the two derived fields; the store is not touched. *)
Lemma _calcOutputShape_run x this h t (H0 W C kh kw sh sw : Z) :
  objs h !! x = Some t -> nd_shape t = (H0, W, C) ->
  poolSize this = (kh, kw) -> strides this = (sh, sw) ->
  let same := String.eqb (borderMode this) "same" in
  let outH := if same then (H0 + sh - 1) / sh else (H0 - kh + sh) / sh in
  let outW := if same then (W + sw - 1) / sw else (W - kw + sw) / sw in
  let padH := if same then Z.max 0 ((outH - 1) * sh + kh - H0) else 0 in
  let padW := if same then Z.max 0 ((outW - 1) * sw + kw - W) else 0 in
  _calcOutputShape x this h
  = Return tt
      (set_outputShape_inputPadding this (outH, outW, C)
         (padH / 2, padH - padH / 2, padW / 2, padW - padW / 2))
      h.
Proof.
  intros Hx Ht Hp Hs. unfold _calcOutputShape, bind, tensor_of, get_this, set_this.
  rewrite Hx, Ht, Hp, Hs. reflexivity.
Qed.

(** C1: in ['same'] mode the derived output size is
    [floor((H + sh - 1) / sh)] by [floor((W + sw - 1) / sw)], the total
    padding is [max(0, (out - 1) * s + k - size)] on each axis, and each
    total is split into [floor(total / 2)] before and the rest after, so
    that an odd total puts its extra cell after and never before. *)
Theorem calcOutputShape_same x this h t (H0 W C kh kw sh sw : Z) :
  borderMode this = "same"%string ->
  poolSize this = (kh, kw) -> strides this = (sh, sw) ->
  objs h !! x = Some t -> nd_shape t = (H0, W, C) ->
  0 < H0 -> 0 < W -> 0 < kh -> 0 < kw -> 0 < sh -> 0 < sw ->
  let outH := (H0 + sh - 1) / sh in
  let outW := (W + sw - 1) / sw in
  let padH := Z.max 0 ((outH - 1) * sh + kh - H0) in
  let padW := Z.max 0 ((outW - 1) * sw + kw - W) in
  exists this',
    _calcOutputShape x this h = Return tt this' h
    /\ outputShape this' = Some (outH, outW, C)
    /\ inputPadding this'
       = Some (padH / 2, padH - padH / 2, padW / 2, padW - padW / 2)
    /\ (Z.odd padH = true -> padH - padH / 2 = padH / 2 + 1)
    /\ (Z.odd padW = true -> padW - padW / 2 = padW / 2 + 1)
    /\ (Z.even padH = true -> padH - padH / 2 = padH / 2)
    /\ (Z.even padW = true -> padW - padW / 2 = padW / 2).
Proof.
  intros Hb Hp Hs Hx Ht HH HW Hkh Hkw Hsh Hsw outH outW padH padW.
  unfold _calcOutputShape, bind, tensor_of, get_this, set_this.
  rewrite Hx, Ht, Hp, Hs, Hb. simpl. unfold floor_div.
  eexists. split; [reflexivity|]. simpl.
  split; [reflexivity|]. split; [reflexivity|].
  assert (Hodd : forall p, Z.odd p = true -> p - p / 2 = p / 2 + 1).
  { intros p Hp'. rewrite (Zodd_div2 p) at 1.
    - rewrite Z.div2_div. lia.
    - apply Zodd_bool_iff. assumption. }
  assert (Heven : forall p, Z.even p = true -> p - p / 2 = p / 2).
  { intros p Hp'. rewrite (Zeven_div2 p) at 1.
    - rewrite Z.div2_div. lia.
    - apply Zeven_bool_iff. assumption. }
  auto.
Qed.

(** C2: in ['valid'] mode the derived output size is
    [floor((H - kh + sh) / sh)] by [floor((W - kw + sw) / sw)] and the four
    padding fields are zero. *)
Theorem calcOutputShape_valid x this h t (H0 W C kh kw sh sw : Z) :
  borderMode this = "valid"%string ->
  poolSize this = (kh, kw) -> strides this = (sh, sw) ->
  objs h !! x = Some t -> nd_shape t = (H0, W, C) ->
  0 < H0 -> 0 < W -> 0 < kh -> 0 < kw -> 0 < sh -> 0 < sw ->
  exists this',
    _calcOutputShape x this h = Return tt this' h
    /\ outputShape this'
       = Some ((H0 - kh + sh) / sh, (W - kw + sw) / sw, C)
    /\ inputPadding this' = Some (0, 0, 0, 0).
Proof.
  intros Hb Hp Hs Hx Ht _ _ _ _ _ _.
  unfold _calcOutputShape, bind, tensor_of, get_this, set_this.
  rewrite Hx, Ht, Hp, Hs, Hb. simpl. unfold floor_div.
  eexists. split; [reflexivity|]. simpl. split; reflexivity.
Qed.

(** ** Typed arrays and views *)

Lemma length_buf_set (b : list num) q v : length (buf_set b q v) = length b.
Proof. unfold buf_set. destruct (q <? 0); [reflexivity|apply length_insert]. Qed.

Lemma buf_get_set_eq (b : list num) q v :
  0 <= q < Z.of_nat (length b) -> buf_get (buf_set b q v) q = v.
Proof.
  intros Hq. unfold buf_get, buf_set.
  destruct (q <? 0) eqn:E; [lia|].
  rewrite list_lookup_insert_eq by lia. reflexivity.
Qed.

Lemma buf_get_set_ne (b : list num) q q' v :
  q <> q' -> buf_get (buf_set b q v) q' = buf_get b q'.
Proof.
  intros Hq. unfold buf_get, buf_set.
  destruct (q' <? 0) eqn:E'; [reflexivity|].
  destruct (q <? 0) eqn:E; [reflexivity|].
  rewrite list_lookup_insert_ne by lia. reflexivity.
Qed.

Lemma buf_get_set_cases (b : list num) q v :
  buf_get (buf_set b q v) q = v
  \/ buf_get (buf_set b q v) q = buf_get b q.
Proof.
  unfold buf_get, buf_set. destruct (q <? 0) eqn:E; [right; reflexivity|].
  destruct (decide (Z.to_nat q < length b)%nat).
  - left. rewrite list_lookup_insert_eq by lia. reflexivity.
  - right. rewrite list_insert_ge by lia. reflexivity.
Qed.

Lemma foldl_ext_in {A B} (f g : A -> B -> A) (l : list B) (a : A) :
  (forall a b, b ∈ l -> f a b = g a b) -> foldl f a l = foldl g a l.
Proof.
  revert a. induction l as [|b l IH]; intros a Hfg; simpl; [reflexivity|].
  rewrite Hfg by constructor. apply IH. intros. apply Hfg. by constructor.
Qed.

Section Writes.

Context {A : Type} (kf : A -> Z) (vf : A -> num).

Let writes (b : list num) (l : list A) : list num :=
  foldl (fun b p => buf_set b (kf p) (vf p)) b l.

Lemma length_writes l b : length (writes b l) = length b.
Proof.
  revert b. induction l as [|p l IH]; intros b; simpl; [reflexivity|].
  unfold writes in *. simpl. rewrite IH. apply length_buf_set.
Qed.

(** A position no write aims at keeps its content. *)
Lemma writes_untouched l b q :
  (forall p, p ∈ l -> kf p <> q) -> buf_get (writes b l) q = buf_get b q.
Proof.
  revert b. induction l as [|p l IH]; intros b Hq; [reflexivity|].
  unfold writes in *. simpl. rewrite IH.
  - apply buf_get_set_ne. apply Hq. constructor.
  - intros. apply Hq. by constructor.
Qed.

Lemma writes_keep l b q v0 :
  buf_get b q = v0 ->
  (forall p, p ∈ l -> kf p = q -> vf p = v0) ->
  buf_get (writes b l) q = v0.
Proof.
  revert b. induction l as [|p l IH]; intros b Hb Hq; [exact Hb|].
  unfold writes in *. simpl. apply IH.
  - destruct (decide (kf p = q)) as [<-|Hne].
    + destruct (buf_get_set_cases b (kf p) (vf p)) as [-> | ->].
      * apply Hq; [constructor|reflexivity].
      * exact Hb.
    + rewrite buf_get_set_ne by assumption. exact Hb.
  - intros. apply Hq; [by constructor|assumption].
Qed.

(** A position inside the array that some write aims at holds the value
    written there, when all writes to it agree. *)
Lemma writes_get l b p0 :
  p0 ∈ l ->
  0 <= kf p0 < Z.of_nat (length b) ->
  (forall p, p ∈ l -> kf p = kf p0 -> vf p = vf p0) ->
  buf_get (writes b l) (kf p0) = vf p0.
Proof.
  revert b. induction l as [|p l IH]; intros b Hin Hb Hq.
  { by apply elem_of_nil in Hin. }
  apply elem_of_cons in Hin as [<- | Hin].
  - apply writes_keep with (l := l) (b := buf_set b (kf p0) (vf p0)).
    + apply buf_get_set_eq. assumption.
    + intros. apply Hq; [by constructor|assumption].
  - unfold writes in *. simpl. apply IH.
    + assumption.
    + rewrite length_buf_set. assumption.
    + intros. apply Hq; [by constructor|assumption].
Qed.

End Writes.

Lemma elem_of_indices3 i j c d0 d1 d2 :
  (i, j, c) ∈ indices3 (d0, d1, d2)
  <-> 0 <= i < d0 /\ 0 <= j < d1 /\ 0 <= c < d2.
Proof.
  unfold indices3. rewrite list_elem_of_bind. split.
  - intros (i' & Hj & Hi). apply elem_of_seqZ in Hi.
    apply list_elem_of_bind in Hj as (j' & Hc & Hj). apply elem_of_seqZ in Hj.
    apply list_elem_of_bind in Hc as (c' & Hp & Hc). apply elem_of_seqZ in Hc.
    apply list_elem_of_singleton in Hp. inversion Hp; subst. lia.
  - intros (Hi & Hj & Hc). exists i. split; [|apply elem_of_seqZ; lia].
    apply list_elem_of_bind. exists j. split; [|apply elem_of_seqZ; lia].
    apply list_elem_of_bind. exists c. split; [|apply elem_of_seqZ; lia].
    by apply list_elem_of_singleton.
Qed.

(** A sequence of [set]s through one view, whose values do not depend on
    the array written to, is a sequence of writes to that array. *)
Lemma foldl_nd_set (a : ndarray) (g : heap num -> Z * Z * Z -> num)
    (l : list (Z * Z * Z)) h :
  (nd_data a < length (bufs h))%nat ->
  (forall b' p, g (Heap (<[nd_data a := b']> (bufs h)) (objs h)) p = g h p) ->
  forall b0,
    foldl (fun h '(i, j, c) => nd_set h a i j c (g h (i, j, c)))
          (Heap (<[nd_data a := b0]> (bufs h)) (objs h)) l
    = Heap (<[nd_data a :=
                foldl (fun b p =>
                         buf_set b (let '(i, j, c) := p in flat a i j c) (g h p))
                      b0 l]> (bufs h))
           (objs h).
Proof.
  intros Hd Hg. induction l as [|[[i j] c] l IH]; intros b0; [reflexivity|].
  simpl. unfold nd_set at 2. simpl.
  rewrite Hg.
  match goal with
  | |- context [alter ?f ?d (<[?d := ?b]> ?l)] =>
      replace (alter f d (<[d := b]> l)) with (<[d := f b]> l)
  end.
  - apply IH.
  - apply list_eq. intros n. destruct (decide (n = nd_data a)) as [->|Hn].
    + rewrite list_lookup_alter_eq, !list_lookup_insert_eq
        by (rewrite ?length_insert; lia).
      reflexivity.
    + rewrite list_lookup_alter_ne, !list_lookup_insert_ne by congruence.
      reflexivity.
Qed.

Lemma heap_insert_id h d b :
  bufs h !! d = Some b -> Heap (<[d := b]> (bufs h)) (objs h) = h.
Proof. intros Hb. rewrite list_insert_id by assumption. by destruct h. Qed.

Lemma nd_get_insert_ne h t d b i j c :
  nd_data t <> d ->
  nd_get (Heap (<[d := b]> (bufs h)) (objs h)) t i j c = nd_get h t i j c.
Proof.
  intros Hne. unfold nd_get. simpl.
  rewrite list_lookup_insert_ne by congruence. reflexivity.
Qed.

Lemma ops_assign_bufs (dst src : ndarray) h b :
  bufs h !! nd_data dst = Some b ->
  nd_data src <> nd_data dst ->
  ops_assign dst src h
  = Heap (<[nd_data dst :=
              foldl (fun b p =>
                       buf_set b (let '(i, j, c) := p in flat dst i j c)
                                 (let '(i, j, c) := p in nd_get h src i j c))
                    b (indices3 (nd_shape dst))]> (bufs h))
         (objs h).
Proof.
  intros Hb Hne. unfold ops_assign.
  rewrite <- (heap_insert_id h _ _ Hb) at 1.
  rewrite (foldl_nd_set dst (fun h '(i, j, c) => nd_get h src i j c)).
  - reflexivity.
  - eapply lookup_lt_Some. eassumption.
  - intros b' [[i j] c]. apply nd_get_insert_ne. assumption.
Qed.

Lemma ops_assigns_bufs (a : ndarray) (v : num) h b :
  bufs h !! nd_data a = Some b ->
  ops_assigns a v h
  = Heap (<[nd_data a :=
              foldl (fun b p =>
                       buf_set b (let '(i, j, c) := p in flat a i j c) v)
                    b (indices3 (nd_shape a))]> (bufs h))
         (objs h).
Proof.
  intros Hb. unfold ops_assigns.
  rewrite <- (heap_insert_id h _ _ Hb) at 1.
  rewrite <- (foldl_nd_set a (fun _ _ => v)).
  - apply foldl_ext_in. intros ? [[i j] c] _. reflexivity.
  - eapply lookup_lt_Some. eassumption.
  - reflexivity.
Qed.

Lemma objs_foldl_nd_set {A} (f : heap num -> A -> heap num) (l : list A) h :
  (forall h p, objs (f h p) = objs h) -> objs (foldl f h l) = objs h.
Proof.
  intros Hf. revert h. induction l as [|p l IH]; intros h; [reflexivity|].
  simpl. rewrite IH. apply Hf.
Qed.

Lemma objs_ops_assign dst src h : objs (ops_assign dst src h) = objs h.
Proof. apply objs_foldl_nd_set. intros ? [[i j] c]. reflexivity. Qed.

Lemma objs_ops_assigns a v h : objs (ops_assigns a v h) = objs h.
Proof. apply objs_foldl_nd_set. intros ? [[i j] c]. reflexivity. Qed.

(** Row-major addressing: distinct indices within the shape address
    distinct positions, all inside the array. *)
Lemma rowmajor_inj (Q C i j c i' j' c' : Z) :
  0 <= j < Q -> 0 <= c < C -> 0 <= j' < Q -> 0 <= c' < C ->
  Q * C * i + C * j + c = Q * C * i' + C * j' + c' ->
  i = i' /\ j = j' /\ c = c'.
Proof.
  intros Hj Hc Hj' Hc' He.
  assert (Hqc : Q * i + j = Q * i' + j') by nia.
  assert (c = c') by nia.
  assert (i = i') by nia.
  subst. lia.
Qed.

Lemma rowmajor_bounds (R Q C r q c : Z) :
  0 <= r < R -> 0 <= q < Q -> 0 <= c < C ->
  0 <= Q * C * r + C * q + c < R * Q * C.
Proof.
  intros Hr Hq Hc.
  assert (0 <= Q * r + q <= Q * R - 1) by nia.
  assert (0 <= C * (Q * r + q) <= C * (Q * R - 1)) by nia.
  lia.
Qed.

Lemma buf_get_replicate (n : nat) (v : num) k :
  0 <= k < Z.of_nat n -> buf_get (replicate n v) k = v.
Proof.
  intros Hk. unfold buf_get. destruct (k <? 0) eqn:E; [lia|].
  rewrite lookup_replicate_2 by lia. reflexivity.
Qed.

(** ** Padding *)

(** [new Tensor([], shape)] on extents none of which is negative. *)
Lemma new_Tensor_run {T} (d0 d1 d2 : Z) (l : T) h :
  0 <= d0 -> 0 <= d1 -> 0 <= d2 ->
  new_Tensor (d0, d1, d2) l h
  = Return (length (objs h)) l
      (Heap (bufs h ++ [replicate (Z.to_nat (d0 * d1 * d2)) zero])
            (objs h ++ [NdArray (length (bufs h)) (d0, d1, d2)
                                (d1 * d2, d2, 1) 0])).
Proof.
  intros H0 H1 H2. unfold new_Tensor.
  destruct (Z.ltb_spec (d0 * d1 * d2) 0); [nia|].
  destruct (Z.ltb_spec (d1 * d2) 0); [nia|].
  destruct (Z.ltb_spec d2 0); [lia|]. reflexivity.
Qed.

(** ... and on extents whose product is negative. *)
Lemma new_Tensor_negative {T} (d0 d1 d2 : Z) (l : T) h :
  d0 * d1 * d2 < 0 ->
  new_Tensor (d0, d1, d2) l h
  = Throw (RangeError "Invalid typed array length") l h.
Proof.
  intros Hneg. unfold new_Tensor.
  destruct (Z.ltb_spec (d0 * d1 * d2) 0); [reflexivity|lia].
Qed.

(** The store [_padInput] leaves in ['same'] mode, step by step. *)
Lemma _padInput_same_run x this h t (H0 W C rb ra cb ca : Z) :
  borderMode this = "same"%string ->
  inputPadding this = Some (rb, ra, cb, ca) ->
  objs h !! x = Some t -> nd_shape t = (H0, W, C) ->
  0 <= H0 + rb + ra -> 0 <= W + cb + ca -> 0 <= C ->
  let R := H0 + rb + ra in
  let Q := W + cb + ca in
  let _xt := NdArray (length (bufs h)) (R, Q, C) (Q * C, C, 1) 0 in
  let h0 := Heap (bufs h ++ [replicate (Z.to_nat (R * Q * C)) zero])
                 (objs h ++ [_xt]) in
  let h1 := if String.eqb (poolingFunc this) "max"
            then ops_assigns _xt neg_inf h0 else h0 in
  let h2 := ops_assign (nd_lo (nd_hi _xt (H0 + rb) (W + cb) C) rb cb 0) t h1 in
  _padInput x this h = Return x this (Heap (bufs h2) (<[x := _xt]> (objs h2))).
Proof.
  intros Hb Hp Hx Ht HR HQ HC R Q _xt h0 h1 h2.
  unfold _padInput, bind at 1, get_this. rewrite Hb. simpl.
  unfold bind at 1, tensor_of at 1. rewrite Hx, Ht, Hp.
  unfold bind at 1. rewrite new_Tensor_run by assumption. fold R Q _xt h0.
  unfold bind at 1, tensor_of. simpl objs.
  rewrite list_lookup_middle by reflexivity.
  assert (Hobjs : objs h2 = objs h ++ [_xt]).
  { unfold h2. rewrite objs_ops_assign. unfold h1.
    destruct (String.eqb (poolingFunc this) "max");
      [rewrite objs_ops_assigns|]; reflexivity. }
  assert (Hx2 : objs h2 !! x = Some t).
  { rewrite Hobjs. by apply lookup_app_l_Some. }
  unfold bind, modify_heap, set_tensor, ret.
  destruct (String.eqb (poolingFunc this) "max") eqn:Emax; simpl;
    fold h0; unfold h2, h1 in Hx2 |- *; rewrite Hx2; reflexivity.
Qed.

(** The tensor [_padInput] leaves in ['same'] mode: a dense view of a new
    typed array, of the padded shape, holding the input in the offset
    region and the fill value around it; the arrays that existed before
    are not written to. *)
Lemma _padInput_same_spec x this h t (H0 W C rb ra cb ca : Z) :
  borderMode this = "same"%string ->
  inputPadding this = Some (rb, ra, cb, ca) ->
  objs h !! x = Some t -> nd_shape t = (H0, W, C) ->
  (nd_data t < length (bufs h))%nat ->
  0 <= H0 -> 0 <= W -> 0 <= C ->
  0 <= rb -> 0 <= ra -> 0 <= cb -> 0 <= ca ->
  let R := H0 + rb + ra in
  let Q := W + cb + ca in
  let t' := NdArray (length (bufs h)) (R, Q, C) (Q * C, C, 1) 0 in
  exists b',
    _padInput x this h
    = Return x this (Heap (bufs h ++ [b']) (<[x := t']> (objs h ++ [t'])))
    /\ (forall i j c,
          0 <= i < H0 -> 0 <= j < W -> 0 <= c < C ->
          nd_get (Heap (bufs h ++ [b']) (<[x := t']> (objs h ++ [t'])))
                 t' (rb + i) (cb + j) c
          = nd_get h t i j c)
    /\ (forall r q c,
          0 <= r < R -> 0 <= q < Q -> 0 <= c < C ->
          ~ (rb <= r < rb + H0 /\ cb <= q < cb + W) ->
          nd_get (Heap (bufs h ++ [b']) (<[x := t']> (objs h ++ [t'])))
                 t' r q c
          = if String.eqb (poolingFunc this) "max" then neg_inf else zero).
Proof.
  intros Hb Hp Hx Ht Hd HH HW HC Hrb Hra Hcb Hca R Q t'.
  rewrite (_padInput_same_run x this h t H0 W C rb ra cb ca)
    by first [assumption | lia].
  fold R Q t'.
  set (n := Z.to_nat (R * Q * C)).
  set (h0 := Heap (bufs h ++ [replicate n zero]) (objs h ++ [t'])).
  set (fill := if String.eqb (poolingFunc this) "max" then neg_inf else zero).
  (* the new array after the optional fill *)
  set (b1 := if String.eqb (poolingFunc this) "max"
             then foldl (fun b p =>
                           buf_set b (let '(i, j, c) := p in flat t' i j c)
                                   neg_inf)
                        (replicate n zero) (indices3 (R, Q, C))
             else replicate n zero).
  assert (Hh0 : bufs h0 !! length (bufs h) = Some (replicate n zero)).
  { apply list_lookup_middle. reflexivity. }
  assert (Hins : forall b : list num,
             <[length (bufs h) := b]> (bufs h ++ [replicate n zero])
             = bufs h ++ [b]).
  { intros b. rewrite insert_app_r_alt, Nat.sub_diag by lia. reflexivity. }
  assert (Hh1 : (if String.eqb (poolingFunc this) "max"
                 then ops_assigns t' neg_inf h0 else h0)
                = Heap (bufs h ++ [b1]) (objs h ++ [t'])).
  { unfold b1. destruct (String.eqb (poolingFunc this) "max").
    - rewrite (ops_assigns_bufs t' neg_inf h0 _ Hh0). simpl.
      rewrite Hins. reflexivity.
    - reflexivity. }
  rewrite Hh1.
  set (h1 := Heap (bufs h ++ [b1]) (objs h ++ [t'])).
  set (dst := nd_lo (nd_hi t' (H0 + rb) (W + cb) C) rb cb 0).
  assert (Hdst : nd_data dst = length (bufs h)) by reflexivity.
  assert (Hshape : nd_shape dst = (H0, W, C)).
  { unfold dst, nd_lo, nd_hi. simpl.
    repeat match goal with
           | |- context [?a <? 0] => destruct (Z.ltb_spec a 0); [lia|]
           | |- context [0 <=? ?a] => destruct (Z.leb_spec 0 a); [|lia]
           end.
    f_equal; [f_equal|]; lia. }
  assert (Hflat : forall i j c,
             flat dst i j c = flat t' (rb + i) (cb + j) c).
  { intros. unfold dst, nd_lo, nd_hi, flat. simpl.
    repeat match goal with
           | |- context [0 <=? ?a] => destruct (Z.leb_spec 0 a); [|lia]
           end.
    lia. }
  assert (Hflat' : forall r q c, flat t' r q c = Q * C * r + C * q + c).
  { intros. unfold flat. simpl. lia. }
  assert (Hlen1 : length b1 = n).
  { unfold b1. destruct (String.eqb (poolingFunc this) "max").
    - rewrite (length_writes (fun p => let '(i, j, c) := p in flat t' i j c)
                 (fun _ => neg_inf)).
      apply length_replicate.
    - apply length_replicate. }
  assert (Hn : Z.of_nat n = R * Q * C).
  { unfold n. rewrite Z2Nat.id; [reflexivity|]. unfold R, Q. nia. }
  assert (Hb1 : forall r q c,
             0 <= r < R -> 0 <= q < Q -> 0 <= c < C ->
             buf_get b1 (flat t' r q c) = fill).
  { intros r q c Hr Hq Hc.
    pose proof (rowmajor_bounds R Q C r q c Hr Hq Hc) as Hbd.
    unfold b1, fill. destruct (String.eqb (poolingFunc this) "max").
    - apply (writes_get (fun p => let '(i, j, c) := p in flat t' i j c)
               (fun _ => neg_inf) _ _ (r, q, c)).
      + apply elem_of_indices3. lia.
      + rewrite length_replicate, Hflat'. lia.
      + reflexivity.
    - apply buf_get_replicate. rewrite Hflat'. lia. }
  assert (Hh1d : bufs h1 !! nd_data dst = Some b1).
  { rewrite Hdst. apply list_lookup_middle. reflexivity. }
  assert (Hsrc : forall i j c, nd_get h1 t i j c = nd_get h t i j c).
  { intros. unfold nd_get, h1. simpl.
    rewrite lookup_app_l by assumption. reflexivity. }
  rewrite (ops_assign_bufs dst t h1 b1 Hh1d) by (rewrite Hdst; lia).
  rewrite Hshape, Hdst. simpl bufs. simpl objs.
  assert (Hins1 : forall b : list num,
             <[length (bufs h) := b]> (bufs h ++ [b1]) = bufs h ++ [b]).
  { intros b. rewrite insert_app_r_alt, Nat.sub_diag by lia. reflexivity. }
  rewrite Hins1.
  eexists. split; [reflexivity|].
  set (kf := fun p : Z * Z * Z => let '(i, j, c) := p in flat dst i j c).
  set (vf := fun p : Z * Z * Z => let '(i, j, c) := p in nd_get h1 t i j c).
  assert (Hget : forall r q c b,
             nd_get (Heap (bufs h ++ [b]) (<[x := t']> (objs h ++ [t'])))
                    t' r q c
             = buf_get b (flat t' r q c)).
  { intros. unfold nd_get. simpl.
    rewrite list_lookup_middle by reflexivity. reflexivity. }
  split.
  - intros i j c Hi Hj Hc. rewrite Hget, <- Hflat, <- Hsrc.
    apply (writes_get kf vf _ _ (i, j, c)).
    + apply elem_of_indices3. lia.
    + unfold kf. rewrite Hflat, Hflat', Hlen1.
      pose proof (rowmajor_bounds R Q C (rb + i) (cb + j) c). unfold R, Q in *.
      lia.
    + intros [[i' j'] c'] Hin He. apply elem_of_indices3 in Hin.
      unfold kf in He. rewrite !Hflat, !Hflat' in He.
      apply rowmajor_inj in He; unfold Q; try lia.
      assert (i' = i /\ j' = j /\ c' = c) as (-> & -> & ->) by lia.
      reflexivity.
  - intros r q c Hr Hq Hc Hout. rewrite Hget.
    rewrite (writes_untouched kf vf).
    + apply Hb1; assumption.
    + intros [[i j] c'] Hin He. apply elem_of_indices3 in Hin.
      unfold kf in He. rewrite Hflat, !Hflat' in He.
      apply rowmajor_inj in He; unfold Q; try lia.
Qed.

(** C5: in ['same'] mode [_padInput] replaces the tensor of [x] by one of
    shape [(H + rowBefore + rowAfter, W + colBefore + colAfter, C)] that
    holds the input in the region starting at [(rowBefore, colBefore, 0)],
    and around it [-Infinity] for the reducer ["max"] and zero for the
    reducer ["average"].  This holds for every non-negative padding, in
    particular when the total is positive. *)
Theorem padInput_same_padded x this h t (H0 W C rb ra cb ca : Z) :
  borderMode this = "same"%string ->
  inputPadding this = Some (rb, ra, cb, ca) ->
  objs h !! x = Some t -> nd_shape t = (H0, W, C) ->
  (nd_data t < length (bufs h))%nat ->
  0 <= H0 -> 0 <= W -> 0 <= C ->
  0 <= rb -> 0 <= ra -> 0 <= cb -> 0 <= ca ->
  exists h' t',
    _padInput x this h = Return x this h'
    /\ objs h' !! x = Some t'
    /\ nd_shape t' = (H0 + rb + ra, W + cb + ca, C)
    /\ (forall i j c,
          0 <= i < H0 -> 0 <= j < W -> 0 <= c < C ->
          nd_get h' t' (rb + i) (cb + j) c = nd_get h t i j c)
    /\ (forall r q c,
          0 <= r < H0 + rb + ra -> 0 <= q < W + cb + ca -> 0 <= c < C ->
          ~ (rb <= r < rb + H0 /\ cb <= q < cb + W) ->
          (poolingFunc this = "max"%string -> nd_get h' t' r q c = neg_inf)
          /\ (poolingFunc this = "average"%string -> nd_get h' t' r q c = zero)).
Proof.
  intros Hb Hp Hx Ht Hd HH HW HC Hrb Hra Hcb Hca.
  destruct (_padInput_same_spec x this h t H0 W C rb ra cb ca)
    as (b' & Hrun & Hin & Hout); try assumption.
  eexists _, _. split; [exact Hrun|]. split.
  { simpl. apply list_lookup_insert_eq. rewrite length_app.
    apply lookup_lt_Some in Hx. lia. }
  split; [reflexivity|]. split; [exact Hin|].
  intros r q c Hr Hq Hc Hreg. rewrite (Hout r q c Hr Hq Hc Hreg).
  split; intros ->; reflexivity.
Qed.

(** C6, as the code has it: outside ['same'] mode [_padInput] changes
    nothing at all; in ['same'] mode with zero padding it keeps the shape
    and every element, and leaves the existing arrays alone, but the tensor
    of [x] is now backed by a new typed array. *)
Theorem padInput_noop_or_copy x this h :
  (borderMode this <> "same"%string -> _padInput x this h = Return x this h)
  /\ (forall t (H0 W C : Z),
        borderMode this = "same"%string ->
        inputPadding this = Some (0, 0, 0, 0) ->
        objs h !! x = Some t -> nd_shape t = (H0, W, C) ->
        (nd_data t < length (bufs h))%nat ->
        0 <= H0 -> 0 <= W -> 0 <= C ->
        exists h' t',
          _padInput x this h = Return x this h'
          /\ objs h' !! x = Some t'
          /\ nd_shape t' = nd_shape t
          /\ (forall i j c,
                0 <= i < H0 -> 0 <= j < W -> 0 <= c < C ->
                nd_get h' t' i j c = nd_get h t i j c)
          /\ (forall k b, bufs h !! k = Some b -> bufs h' !! k = Some b)
          /\ nd_data t' = length (bufs h)
          /\ nd_data t' <> nd_data t).
Proof.
  split.
  - intros Hb. apply String.eqb_neq in Hb.
    unfold _padInput, bind, get_this. rewrite Hb. reflexivity.
  - intros t H0 W C Hb Hp Hx Ht Hd HH HW HC.
    destruct (_padInput_same_spec x this h t H0 W C 0 0 0 0)
      as (b' & Hrun & Hin & _); try assumption; try lia.
    eexists _, _. split; [exact Hrun|]. split.
    { simpl. apply list_lookup_insert_eq. rewrite length_app.
      apply lookup_lt_Some in Hx. lia. }
    split. { rewrite Ht. simpl. rewrite !Z.add_0_r. reflexivity. }
    split. { intros i j c Hi Hj Hc. apply (Hin i j c Hi Hj Hc). }
    split. { intros k b Hk. simpl. by apply lookup_app_l_Some. }
    split; [reflexivity|]. simpl. lia.
Qed.

(** ** The loop nest *)

(** With a positive step and enough fuel the loop header runs its body on
    [(i, _i), (i + step, _i + 1), ...], as long as the first component is
    at most [bound]. *)
Lemma loop_positions_enough (bound step : Z) (n : nat) :
  0 < step ->
  forall fuel i _i,
    (n < fuel)%nat ->
    bound < i + Z.of_nat n * step ->
    (n = 0%nat \/ i + (Z.of_nat n - 1) * step <= bound) ->
    loop_positions fuel i _i bound step
    = Some ((fun k => (i + k * step, _i + k)) <$> seqZ 0 (Z.of_nat n)).
Proof.
  intros Hstep. induction n as [|n IH]; intros fuel i _i Hfuel Hhi Hlo.
  - destruct fuel as [|fuel]; [lia|]. simpl.
    destruct (Z.leb_spec i bound); [lia|]. reflexivity.
  - destruct fuel as [|fuel]; [lia|]. simpl loop_positions.
    destruct (Z.leb_spec i bound); [|nia].
    rewrite (IH fuel (i + step) (_i + 1)) by first [lia | destruct n; [left|right]; lia].
    rewrite (seqZ_cons 0 (Z.of_nat (S n))) by lia. simpl.
    f_equal. f_equal; [f_equal; lia|].
    replace (Z.pred (Z.of_nat (S n))) with (Z.of_nat n) by lia.
    change (Z.succ 0) with (1 + 0). rewrite <- fmap_add_seqZ, <- list_fmap_compose.
    apply list_fmap_ext. intros _ k _. simpl. f_equal; lia.
Qed.

(** A loop whose body always completes is a fold over its positions. *)
Lemma for_loop_total (bound step : Z)
    (body : Z -> Z -> heap num -> option (heap num))
    (g : Z -> Z -> heap num -> heap num) :
  (forall i _i h, body i _i h = Some (g i _i h)) ->
  forall fuel i _i h ps,
    loop_positions fuel i _i bound step = Some ps ->
    for_loop fuel i _i bound step body h
    = Some (foldl (fun h p => g p.1 p.2 h) h ps).
Proof.
  intros Hbody. induction fuel as [|fuel IH]; intros i _i h ps Hps;
    [discriminate|].
  simpl in *. destruct (i <=? bound).
  - destruct (loop_positions fuel (i + step) (_i + 1) bound step) as [ps'|] eqn:E;
      [|discriminate].
    simpl in Hps. injection Hps as <-.
    rewrite Hbody. simpl. apply IH. assumption.
  - injection Hps as <-. reflexivity.
Qed.

Lemma foldl_bind {A B C} (f : A -> C -> A) (g : B -> list C) (l : list B) a :
  foldl f a (l ≫= g) = foldl (fun a e => foldl f a (g e)) a l.
Proof.
  revert a. induction l as [|x l IH]; intros a; [reflexivity|].
  rewrite bind_cons, foldl_app. apply IH.
Qed.

Lemma length_bind_const {A B} (g : A -> list B) (l : list A) (m : nat) :
  (forall e, length (g e) = m) -> length (l ≫= g) = (length l * m)%nat.
Proof.
  intros Hg. induction l as [|x l IH]; [reflexivity|].
  rewrite bind_cons, length_app, Hg, IH. simpl. lia.
Qed.

(** The loop nest of [call] applies [pool_window_at] to the window
    positions, in order. *)
Lemma pool_loops_visits fuel this xt yt pt h ps :
  window_positions fuel this xt = Some ps ->
  pool_loops fuel this xt yt pt h
  = Some (foldl (fun h p => pool_window_at this xt yt pt p h) h ps).
Proof.
  unfold window_positions, pool_loops, pool_window_at.
  destruct (nd_shape xt) as [[inputRows inputCols] ch].
  destruct (poolSize this) as [nbRow nbCol].
  destruct (strides this) as [s0 s1].
  destruct (default (0, 0, 0, 0) (inputPadding this)) as [[[prb pra] pcb] pca].
  destruct (loop_positions fuel 0 0 (inputRows - nbRow) s0) as [rows|] eqn:Er;
    [|discriminate].
  destruct (loop_positions fuel 0 0 (inputCols - nbCol) s1) as [cols|] eqn:Ec;
    [|discriminate].
  simpl. intros [= <-].
  set (inner := fun i _i : Z =>
         for_loop fuel 0 0 (inputCols - nbCol) s1
           (fun j _j h =>
              Some (pool_window this xt yt pt
                      (nbInPadding i nbRow inputRows prb pra)
                      (nbInPadding j nbCol inputCols pcb pca) i _i j _j h))).
  assert (Hinner : forall i _i h',
             inner i _i h'
             = Some (foldl (fun h p =>
                              pool_window this xt yt pt
                                (nbInPadding i nbRow inputRows prb pra)
                                (nbInPadding p.1 nbCol inputCols pcb pca)
                                i _i p.1 p.2 h) h' cols)).
  { intros i _i h'. unfold inner.
    apply (for_loop_total _ _ _
             (fun j _j h =>
                pool_window this xt yt pt
                  (nbInPadding i nbRow inputRows prb pra)
                  (nbInPadding j nbCol inputCols pcb pca) i _i j _j h));
      [reflexivity|assumption]. }
  rewrite (for_loop_total _ _ inner _ Hinner _ _ _ _ _ Er).
  f_equal. rewrite foldl_bind. apply foldl_ext_in. intros h' [i _i] _.
  rewrite foldl_bind. apply foldl_ext_in. intros h'' [j _j] _. reflexivity.
Qed.

(** The derived output size, cut at zero, is the number of steps of the
    loop over the padded extent. *)
Lemma steps_of_extent (same : bool) (H0 kh sh : Z) :
  0 < H0 -> 0 < kh -> 0 < sh ->
  let outH := if same then (H0 + sh - 1) / sh else (H0 - kh + sh) / sh in
  let padH := if same then Z.max 0 ((outH - 1) * sh + kh - H0) else 0 in
  let n := Z.max 0 outH in
  0 <= n <= H0
  /\ H0 + padH - kh < n * sh
  /\ (n = 0 \/ (n - 1) * sh <= H0 + padH - kh)
  /\ (same = true -> 0 < outH)
  /\ padH / 2 + (padH - padH / 2) = padH.
Proof.
  intros HH Hkh Hsh outH padH n.
  destruct same.
  - pose proof (Z.mul_div_le (H0 + sh - 1) sh Hsh) as Hlo.
    pose proof (Z.mul_succ_div_gt (H0 + sh - 1) sh Hsh) as Hhi.
    fold outH in Hlo, Hhi. unfold n, padH. clearbody outH.
    assert (0 < outH) by nia.
    assert (outH <= H0) by nia.
    rewrite (Z.max_r 0 outH) by lia.
    destruct (Z.max_spec 0 ((outH - 1) * sh + kh - H0)) as [[? ->]|[? ->]];
      (split; [lia|]); (split; [nia|]); (split; [right; nia|]);
      (split; [lia|lia]).
  - pose proof (Z.mul_div_le (H0 - kh + sh) sh Hsh) as Hlo.
    pose proof (Z.mul_succ_div_gt (H0 - kh + sh) sh Hsh) as Hhi.
    fold outH in Hlo, Hhi. unfold n, padH. clearbody outH.
    assert (outH <= H0) by nia.
    destruct (Z.max_spec 0 outH) as [[? ->]|[? ->]];
      (split; [lia|]); (split; [nia|]);
      (split; [first [left; reflexivity | right; nia]|]);
      (split; [discriminate|reflexivity]).
Qed.

(** Shape derivation followed by padding, and the window positions the
    loop nest then visits. *)
Lemma calc_pad_positions x this h t (H0 W C kh kw sh sw : Z) fuel :
  poolSize this = (kh, kw) -> strides this = (sh, sw) ->
  objs h !! x = Some t -> nd_shape t = (H0, W, C) ->
  0 < H0 -> 0 < W -> 0 <= C -> 0 < kh -> 0 < kw -> 0 < sh -> 0 < sw ->
  Z.max H0 W < Z.of_nat fuel ->
  let same := String.eqb (borderMode this) "same" in
  let outH := if same then (H0 + sh - 1) / sh else (H0 - kh + sh) / sh in
  let outW := if same then (W + sw - 1) / sw else (W - kw + sw) / sw in
  let padH := if same then Z.max 0 ((outH - 1) * sh + kh - H0) else 0 in
  let padW := if same then Z.max 0 ((outW - 1) * sw + kw - W) else 0 in
  let this1 := set_outputShape_inputPadding this (outH, outW, C)
                 (padH / 2, padH - padH / 2, padW / 2, padW - padW / 2) in
  exists h1 xt,
    (_calcOutputShape x ;; _padInput x) this h = Return x this1 h1
    /\ objs h1 !! x = Some xt
    /\ nd_shape xt = (H0 + padH, W + padW, C)
    /\ window_positions fuel this1 xt
       = Some (r ← seqZ 0 (Z.max 0 outH); c ← seqZ 0 (Z.max 0 outW);
               [(r * sh, r, c * sw, c)])
    /\ (forall r, 0 <= r -> (r * sh + kh <= H0 + padH <-> r < Z.max 0 outH))
    /\ (forall c, 0 <= c -> (c * sw + kw <= W + padW <-> c < Z.max 0 outW))
    /\ (same = true -> 0 < outH /\ 0 < outW).
Proof.
  intros Hp Hs Hx Ht HH HW HC Hkh Hkw Hsh Hsw Hfuel same outH outW padH padW
    this1.
  unfold bind at 1.
  rewrite (_calcOutputShape_run x this h t H0 W C kh kw sh sw) by assumption.
  fold same outH outW padH padW this1.
  destruct (steps_of_extent same H0 kh sh HH Hkh Hsh)
    as (HnH & HhiH & HloH & HposH & HsumH).
  destruct (steps_of_extent same W kw sw HW Hkw Hsw)
    as (HnW & HhiW & HloW & HposW & HsumW).
  fold outH padH in HnH, HhiH, HloH, HposH, HsumH.
  fold outW padW in HnW, HhiW, HloW, HposW, HsumW.
  assert (HpadH : 0 <= padH) by (unfold padH; destruct same; lia).
  assert (HpadW : 0 <= padW) by (unfold padW; destruct same; lia).
  assert (Hpos : forall xt h1,
             nd_shape xt = (H0 + padH, W + padW, C) ->
             objs h1 !! x = Some xt ->
             _padInput x this1 h = Return x this1 h1 ->
             exists h1 xt,
               _padInput x this1 h = Return x this1 h1
               /\ objs h1 !! x = Some xt
               /\ nd_shape xt = (H0 + padH, W + padW, C)
               /\ window_positions fuel this1 xt
                  = Some (r ← seqZ 0 (Z.max 0 outH); c ← seqZ 0 (Z.max 0 outW);
                          [(r * sh, r, c * sw, c)])
               /\ (forall r, 0 <= r ->
                     (r * sh + kh <= H0 + padH <-> r < Z.max 0 outH))
               /\ (forall c, 0 <= c ->
                     (c * sw + kw <= W + padW <-> c < Z.max 0 outW))
               /\ (same = true -> 0 < outH /\ 0 < outW)).
  { intros xt h1 Hshape Hx1 Hrun. exists h1, xt.
    split; [exact Hrun|]. split; [exact Hx1|]. split; [exact Hshape|].
    split; [|split; [|split]].
    - unfold window_positions. rewrite Hshape. unfold this1 at 1 2. simpl.
      rewrite Hp, Hs.
      rewrite (loop_positions_enough (H0 + padH - kh) sh (Z.to_nat (Z.max 0 outH)))
        by (rewrite ?Z2Nat.id by lia; lia).
      rewrite (loop_positions_enough (W + padW - kw) sw (Z.to_nat (Z.max 0 outW)))
        by (rewrite ?Z2Nat.id by lia; lia).
      simpl. rewrite !Z2Nat.id by lia. f_equal.
      rewrite list_fmap_bind. apply list_bind_ext; [|reflexivity].
      intros r. unfold compose. rewrite list_fmap_bind.
      apply list_bind_ext; [|reflexivity].
      intros c. simpl. repeat f_equal; lia.
    - intros r Hr. split; intros; nia.
    - intros c Hc. split; intros; nia.
    - intros Hb. split; [apply HposH|apply HposW]; exact Hb. }
  destruct same eqn:Esame.
  - apply String.eqb_eq in Esame.
    pose proof (_padInput_same_run x this1 h t H0 W C
                  (padH / 2) (padH - padH / 2) (padW / 2) (padW - padW / 2)
                  Esame eq_refl Hx Ht ltac:(lia) ltac:(lia) HC) as Hrun.
    simpl in Hrun.
    refine (Hpos (NdArray (length (bufs h))
                    (H0 + padH / 2 + (padH - padH / 2),
                     W + padW / 2 + (padW - padW / 2), C)
                    ((W + padW / 2 + (padW - padW / 2)) * C, C, 1) 0)
              _ _ _ Hrun).
    + simpl.
      replace (H0 + padH / 2 + (padH - padH / 2)) with (H0 + padH) by lia.
      replace (W + padW / 2 + (padW - padW / 2)) with (W + padW) by lia.
      reflexivity.
    + simpl. apply list_lookup_insert_eq.
      rewrite objs_ops_assign.
      destruct (String.eqb (poolingFunc this) "max");
        rewrite ?objs_ops_assigns; simpl; rewrite length_app;
        apply lookup_lt_Some in Hx; lia.
  - apply String.eqb_neq in Esame.
    eapply (Hpos t h).
    + rewrite Ht. unfold padH, padW. rewrite !Z.add_0_r. reflexivity.
    + exact Hx.
    + unfold _padInput, bind, get_this.
      apply String.eqb_neq in Esame.
      change (borderMode this1) with (borderMode this). rewrite Esame.
      reflexivity.
Qed.

(** C4, as the code has it: the loop nest runs its body on the rows
    [0, sh, 2 sh, ...] and the columns [0, sw, 2 sw, ...] for which the
    window fits in the padded tensor, and the number of window positions is
    [max(0, outH) * max(0, outW)]; this is [outH * outW] unless a derived
    size is negative, which does not happen in ['same'] mode. *)
Theorem window_positions_count x this h t (H0 W C kh kw sh sw : Z) fuel :
  poolSize this = (kh, kw) -> strides this = (sh, sw) ->
  objs h !! x = Some t -> nd_shape t = (H0, W, C) ->
  0 < H0 -> 0 < W -> 0 <= C -> 0 < kh -> 0 < kw -> 0 < sh -> 0 < sw ->
  Z.max H0 W < Z.of_nat fuel ->
  exists this1 h1 xt outH outW pH pW ps,
    (_calcOutputShape x ;; _padInput x) this h = Return x this1 h1
    /\ objs h1 !! x = Some xt /\ nd_shape xt = (pH, pW, C)
    /\ outputShape this1 = Some (outH, outW, C)
    /\ window_positions fuel this1 xt = Some ps
    /\ (forall yt pt h2,
          pool_loops fuel this1 xt yt pt h2
          = Some (foldl (fun h p => pool_window_at this1 xt yt pt p h) h2 ps))
    /\ ps = (r ← seqZ 0 (Z.max 0 outH); c ← seqZ 0 (Z.max 0 outW);
             [(r * sh, r, c * sw, c)])
    /\ (forall r, 0 <= r -> (r * sh + kh <= pH <-> r < Z.max 0 outH))
    /\ (forall c, 0 <= c -> (c * sw + kw <= pW <-> c < Z.max 0 outW))
    /\ Z.of_nat (length ps) = Z.max 0 outH * Z.max 0 outW
    /\ (0 <= outH -> 0 <= outW -> Z.of_nat (length ps) = outH * outW)
    /\ (borderMode this = "same"%string -> 0 < outH /\ 0 < outW).
Proof.
  intros Hp Hs Hx Ht HH HW HC Hkh Hkw Hsh Hsw Hfuel.
  destruct (calc_pad_positions x this h t H0 W C kh kw sh sw fuel)
    as (h1 & xt & Hrun & Hx1 & Hshape & Hps & Hrows & Hcols & Hsame);
    try assumption.
  eexists _, h1, xt, _, _, _, _, _.
  split; [exact Hrun|]. split; [exact Hx1|]. split; [exact Hshape|].
  split; [reflexivity|]. split; [exact Hps|].
  split; [intros; apply pool_loops_visits; exact Hps|].
  split; [reflexivity|].
  split; [exact Hrows|]. split; [exact Hcols|].
  match goal with
  | |- Z.of_nat (length ?l) = ?a * ?b /\ _ =>
      assert (Hlen : Z.of_nat (length l) = a * b)
  end.
  { erewrite length_bind_const.
    2:{ intros r. rewrite (length_bind_const _ _ 1%nat) by reflexivity.
        rewrite length_seqZ. reflexivity. }
    rewrite length_seqZ. lia. }
  split; [exact Hlen|]. split.
  - intros. rewrite Hlen. lia.
  - intros Hb. apply Hsame. rewrite Hb. reflexivity.
Qed.

(** ** The whole call *)

Lemma bind_assoc {T A B C'} (m : M T A) (f : A -> M T B) (g : B -> M T C')
    (l : T) h :
  bind (bind m f) g l h = bind m (fun a => bind (f a) g) l h.
Proof. unfold bind. destruct (m l h); reflexivity. Qed.

Lemma bind_tensor_of {T B} x t (k : ndarray -> M T B) (l : T) h :
  objs h !! x = Some t -> bind (tensor_of x) k l h = k t l h.
Proof. intros Hx. unfold bind, tensor_of. rewrite Hx. reflexivity. Qed.

Lemma bind_set_tensor {T B} x t t' (k : unit -> M T B) (l : T) h :
  objs h !! x = Some t ->
  bind (set_tensor x t') k l h
  = k tt l (Heap (bufs h) (<[x := t']> (objs h))).
Proof. intros Hx. unfold bind, set_tensor. rewrite Hx. reflexivity. Qed.

Lemma objs_pool_window_at this xt yt pt p h :
  objs (pool_window_at this xt yt pt p h) = objs h.
Proof.
  unfold pool_window_at, pool_window. destruct p as [[[i _i] j] _j].
  destruct (nd_shape xt) as [[? ?] ?]. destruct (poolSize this).
  destruct (default (0, 0, 0, 0) (inputPadding this)) as [[[? ?] ?] ?].
  rewrite objs_foldl_nd_set.
  - apply objs_ops_assign.
  - intros h' c. repeat case_match; reflexivity.
Qed.

(** What [call] returns when the reducer is known, the input is a tensor
    object, sizes are positive and the loops have fuel: the tensor of [x]
    is the output tensor [y] (transposed back for ['th'] ordering), filled
    window by window. *)
Lemma call_run fuel x this h t0 (H0 W C kh kw sh sw : Z) :
  poolingFunc this = "max"%string \/ poolingFunc this = "average"%string ->
  poolSize this = (kh, kw) -> strides this = (sh, sw) ->
  objs h !! x = Some t0 ->
  let th := String.eqb (dimOrdering this) "th" in
  let t := if th then nd_transpose t0 1 2 0 else t0 in
  let hT := if th then Heap (bufs h) (<[x := t]> (objs h)) else h in
  nd_shape t = (H0, W, C) ->
  0 < H0 -> 0 < W -> 0 <= C -> 0 < kh -> 0 < kw -> 0 < sh -> 0 < sw ->
  borderMode this = "same"%string \/ (kh <= H0 + sh /\ kw <= W + sw) ->
  Z.max H0 W < Z.of_nat fuel ->
  exists this1 h1 xt outH outW ps,
    (_calcOutputShape x ;; _padInput x) this hT = Return x this1 h1
    /\ objs h1 !! x = Some xt
    /\ outputShape this1 = Some (outH, outW, C)
    /\ window_positions fuel this1 xt = Some ps
    /\ let yt := NdArray (length (bufs h1)) (outH, outW, C) (outW * C, C, 1) 0 in
       let pt := NdArray (S (length (bufs h1))) (kh, kw, C) (kw * C, C, 1) 0 in
       let ha := Heap ((bufs h1 ++ [replicate (Z.to_nat (outH * outW * C)) zero])
                         ++ [replicate (Z.to_nat (kh * kw * C)) zero])
                      ((objs h1 ++ [yt]) ++ [pt]) in
       let hl := foldl (fun h p => pool_window_at this1 xt yt pt p h) ha ps in
       call fuel x this h
       = Return x this1
           (Heap (bufs hl)
                 (<[x := if th then nd_transpose yt 2 0 1 else yt]> (objs hl))).
Proof.
  intros Hf Hp Hs Hx th t hT Ht HH HW HC Hkh Hkw Hsh Hsw Hgeom Hfuel.
  assert (HxT : objs hT !! x = Some t).
  { unfold hT, t. destruct th; [|exact Hx]. simpl.
    apply list_lookup_insert_eq. eapply lookup_lt_Some. eassumption. }
  destruct (calc_pad_positions x this hT t H0 W C kh kw sh sw fuel)
    as (h1 & xt & Hrun & Hx1 & Hshape & Hps & _ & _ & Hsame); try assumption.
  match type of Hsame with
  | _ -> 0 < ?a /\ 0 < ?b => assert (Hout : 0 <= a /\ 0 <= b)
  end.
  { destruct (String.eqb (borderMode this) "same") eqn:Esame.
    - destruct (Hsame eq_refl). lia.
    - destruct Hgeom as [Hb | [HgH HgW]];
        [apply String.eqb_neq in Esame; contradiction|].
      split; apply Z.div_pos; lia. }
  clear Hsame. destruct Hout as [HoutH HoutW].
  eexists _, h1, xt, _, _, _.
  split; [exact Hrun|]. split; [exact Hx1|]. split; [reflexivity|].
  split; [exact Hps|].
  match type of Hrun with _ = Return _ ?l _ => set (this1 := l) in * end.
  match type of Hps with _ = Some ?l => set (ps := l) in * end.
  intros yt pt ha hl.
  unfold call. unfold bind at 1, get_this.
  assert (negb (String.eqb (poolingFunc this) "max")
          && negb (String.eqb (poolingFunc this) "average") = false) as ->.
  { destruct Hf as [-> | ->]; reflexivity. }
  unfold bind at 1.
  assert (Hpre : (if String.eqb (dimOrdering this) "th"
                  then t1 <- tensor_of x ;; set_tensor x (nd_transpose t1 1 2 0)
                  else ret tt) this h = Return tt this hT).
  { unfold hT, t. fold th. destruct th; [|reflexivity].
    rewrite (bind_tensor_of x t0) by assumption.
    unfold set_tensor. rewrite Hx. reflexivity. }
  rewrite Hpre. clear Hpre.
  rewrite <- bind_assoc. unfold bind at 1. rewrite Hrun.
  rewrite (bind_tensor_of x xt) by assumption.
  unfold bind at 1, get_this.
  change (outputShape this1) with (Some (fst (fst (default (0,0,0) (outputShape this1))),
                                         snd (fst (default (0,0,0) (outputShape this1))), C)).
  change (inputPadding this1) with (Some (default (0,0,0,0) (inputPadding this1))).
  cbv iota beta. rewrite Hshape.
  change (poolSize this1) with (poolSize this). rewrite Hp.
  unfold bind at 1. rewrite new_Tensor_run by assumption.
  unfold bind at 1. rewrite new_Tensor_run by lia. simpl bufs. simpl objs.
  rewrite !length_app. simpl length. rewrite !Nat.add_1_r.
  fold yt. fold pt. fold ha.
  assert (Hyt : objs ha !! length (objs h1) = Some yt).
  { simpl. rewrite lookup_app_l by (rewrite length_app; simpl; lia).
    apply list_lookup_middle. reflexivity. }
  assert (Hpt : objs ha !! S (length (objs h1)) = Some pt).
  { simpl. apply list_lookup_middle. rewrite length_app. simpl. lia. }
  rewrite (bind_tensor_of _ yt) by assumption.
  rewrite (bind_tensor_of _ pt) by assumption.
  unfold bind at 1, run_fuelled.
  rewrite (pool_loops_visits fuel this1 xt yt pt ha ps Hps). fold hl.
  assert (Hobjs : objs hl = objs ha).
  { unfold hl. apply objs_foldl_nd_set. intros. apply objs_pool_window_at. }
  assert (Hxl : objs hl !! x = Some xt).
  { rewrite Hobjs. simpl. rewrite <- app_assoc. by apply lookup_app_l_Some. }
  rewrite (bind_set_tensor x xt) by assumption.
  change (dimOrdering this1) with (dimOrdering this). fold th.
  destruct th.
  - unfold bind at 1.
    rewrite (bind_tensor_of x yt)
      by (simpl; apply list_lookup_insert_eq; eapply lookup_lt_Some; eassumption).
    unfold set_tensor, ret. simpl objs. simpl bufs.
    rewrite list_lookup_insert_eq by (eapply lookup_lt_Some; eassumption).
    rewrite list_insert_insert_eq. reflexivity.
  - reflexivity.
Qed.







(** ** Average pooling and the padding count *)

(** The count of line 125-130 is the full overlap with the padding bands
    as long as the window does not reach into both bands; when it does,
    only the leading band is counted. *)
Lemma nbInPadding_overlap (i nb input before after : Z) :
  0 <= i -> 0 < nb -> 0 <= before -> 0 <= after ->
  before <= input - after -> i + nb <= input ->
  before <= i + nb -> i <= input - after ->
  (~ (i < before /\ input - after < i + nb) ->
   nbInPadding i nb input before after = padding_overlap i nb input before after)
  /\ (i < before -> input - after < i + nb ->
      nbInPadding i nb input before after = before - i
      /\ padding_overlap i nb input before after
         = (before - i) + (i + nb - (input - after))).
Proof.
  intros. unfold nbInPadding, padding_overlap.
  destruct (Z.ltb_spec i before); destruct (Z.gtb_spec (i + nb) (input - after));
    split; intros; lia.
Qed.

End Properties.

(** * Concrete runs *)

(** C1 on a 5 x 5 input, window 2 x 2, stride 2: output 3 x 3, one cell of
    padding per axis, placed after. *)
Lemma calcOutputShape_same_witness :
  exists this',
    _calcOutputShape 0%nat (pooling_layer (2, 2) (2, 2) "same")
      (single_tensor (5, 5, 1) (replicate 25 (Fin 1)))
    = Return tt this' (single_tensor (5, 5, 1) (replicate 25 (Fin 1)))
    /\ outputShape this' = Some (3, 3, 1)
    /\ inputPadding this' = Some (0, 1, 0, 1).
Proof.
  destruct (calcOutputShape_same (num := xnum) 0%nat
              (pooling_layer (2, 2) (2, 2) "same")
              (single_tensor (5, 5, 1) (replicate 25 (Fin 1)))
              (NdArray 0%nat (5, 5, 1) (5, 1, 1) 0) 5 5 1 2 2 2 2)
    as (this' & Hrun & Hout & Hpad & _);
    [reflexivity | reflexivity | reflexivity | reflexivity | reflexivity
     | lia | lia | lia | lia | lia | lia |].
  exists this'. split; [exact Hrun|]. split; [exact Hout|exact Hpad].
Defined.

(** C2 on a 4 x 4 input, window 2 x 2, stride 2: output 2 x 2, no padding. *)
Lemma calcOutputShape_valid_witness :
  exists this',
    _calcOutputShape 0%nat (pooling_layer (2, 2) (2, 2) "valid")
      (single_tensor (4, 4, 1) (replicate 16 (Fin 1)))
    = Return tt this' (single_tensor (4, 4, 1) (replicate 16 (Fin 1)))
    /\ outputShape this' = Some (2, 2, 1)
    /\ inputPadding this' = Some (0, 0, 0, 0).
Proof.
  apply (calcOutputShape_valid (num := xnum) 0%nat
           (pooling_layer (2, 2) (2, 2) "valid")
           (single_tensor (4, 4, 1) (replicate 16 (Fin 1)))
           (NdArray 0%nat (4, 4, 1) (4, 1, 1) 0) 4 4 1 2 2 2 2);
    first [reflexivity | lia].
Defined.

(** The two scenarios of the specification: a 4 x 4 input of ones, window
    2 x 2, stride 2, ['valid'], average gives a 2 x 2 output of ones; a
    5 x 5 input whose rows hold 0..4, window 2 x 2, stride 2, ['same'], max
    gives a 3 x 3 output with padding split (0, 1) and border outputs that
    are the maxima of the in-bounds values. *)
Example scenario_valid_average :
  exists this' h' yt,
    call 5 0%nat (average_layer (2, 2) (2, 2) "valid")
         (single_tensor (4, 4, 1) (replicate 16 (Fin 1)))
    = Return 0%nat this' h'
    /\ objs h' !! 0%nat = Some yt
    /\ nd_shape yt = (2, 2, 1)
    /\ (fun '(i, j, c) => nd_get h' yt i j c) <$> indices3 (nd_shape yt)
       = [Fin 1; Fin 1; Fin 1; Fin 1].
Proof.
  eexists _, _, _. split; [vm_compute; reflexivity|].
  repeat split; vm_compute; reflexivity.
Qed.

Example scenario_same_max :
  exists this' h' yt,
    call 6 0%nat (pooling_layer (2, 2) (2, 2) "same")
         (single_tensor (5, 5, 1)
            (r ← seqZ 0 5; c ← seqZ 0 5; [Fin (inject_Z r)]))
    = Return 0%nat this' h'
    /\ inputPadding this' = Some (0, 1, 0, 1)
    /\ objs h' !! 0%nat = Some yt
    /\ nd_shape yt = (3, 3, 1)
    /\ (fun '(i, j, c) => nd_get h' yt i j c) <$> indices3 (nd_shape yt)
       = [Fin 1; Fin 1; Fin 1; Fin 3; Fin 3; Fin 3; Fin 4; Fin 4; Fin 4].
Proof.
  eexists _, _, _. split; [vm_compute; reflexivity|].
  repeat split; vm_compute; reflexivity.
Qed.

(** C3 fails on the code: a 1 x 1 input holding 8, window 3 x 3, stride 1,
    ['same'] mode, average pooling.  The padding is one cell on every side,
    so the single window holds one genuine value and eight padded zeros;
    its rows [0..2] overlap both padding bands in two rows, but the count
    of lines 125-130 is 1, likewise for the columns.  The sum 8 is divided
    by [(3 - 1) * (3 - 1) = 4]: the output is 2, not the mean 8 of the
    genuine values. *)
Theorem average_window_over_both_bands :
  exists this' h' yt,
    call 4 0%nat (average_layer (3, 3) (1, 1) "same")
         (single_tensor (1, 1, 1) [Fin 8])
    = Return 0%nat this' h'
    /\ inputPadding this' = Some (1, 1, 1, 1)
    /\ objs h' !! 0%nat = Some yt
    /\ nd_shape yt = (1, 1, 1)
    /\ nd_get h' yt 0 0 0 = Fin 2
    /\ nbInPadding 0 3 3 1 1 = 1
    /\ padding_overlap 0 3 3 1 1 = 2
    /\ ndiv (Fin 8) (of_Z ((3 - nbInPadding 0 3 3 1 1) * (3 - nbInPadding 0 3 3 1 1)))
       = Fin 2
    /\ ndiv (Fin 8) (of_Z ((3 - padding_overlap 0 3 3 1 1)
                           * (3 - padding_overlap 0 3 3 1 1)))
       = Fin 8.
Proof.
  eexists _, _, _. split; [vm_compute; reflexivity|].
  repeat split; vm_compute; reflexivity.
Qed.

(** C4 as stated fails: a 1 x 1 input with window 3 x 3 and stride 1 in
    ['valid'] mode has derived sizes [-1] by [-1], whose product is 1, and
    the loop nest visits no window position. *)
Lemma window_count_counterexample :
  let this := pooling_layer (3, 3) (1, 1) "valid" in
  let h := single_tensor (1, 1, 1) [Fin 8] in
  let this1 := set_outputShape_inputPadding this (-1, -1, 1) (0, 0, 0, 0) in
  (_calcOutputShape 0%nat ;; _padInput 0%nat) this h = Return 0%nat this1 h
  /\ objs h !! 0%nat = Some (NdArray 0%nat (1, 1, 1) (1, 1, 1) 0)
  /\ window_positions 4 this1 (NdArray 0%nat (1, 1, 1) (1, 1, 1) 0) = Some []
  /\ ~ (exists ps,
          window_positions 4 this1 (NdArray 0%nat (1, 1, 1) (1, 1, 1) 0) = Some ps
          /\ Z.of_nat (length ps) = (-1) * (-1)).
Proof.
  split; [vm_compute; reflexivity|]. split; [reflexivity|].
  split; [vm_compute; reflexivity|].
  intros (ps & Hps & Hlen). vm_compute in Hps. injection Hps as <-.
  discriminate Hlen.
Qed.

(** C4 on a 5 x 5 input, window 2 x 2, stride 2, ['same'] mode: nine window
    positions. *)
Lemma window_positions_count_witness :
  exists this1 h1 xt ps,
    (_calcOutputShape 0%nat ;; _padInput 0%nat)
      (pooling_layer (2, 2) (2, 2) "same")
      (single_tensor (5, 5, 1) (replicate 25 (Fin 1)))
    = Return 0%nat this1 h1
    /\ objs h1 !! 0%nat = Some xt
    /\ outputShape this1 = Some (3, 3, 1)
    /\ window_positions 6 this1 xt = Some ps
    /\ Z.of_nat (length ps) = 9.
Proof.
  destruct (window_positions_count (num := xnum) 0%nat
              (pooling_layer (2, 2) (2, 2) "same")
              (single_tensor (5, 5, 1) (replicate 25 (Fin 1)))
              (NdArray 0%nat (5, 5, 1) (5, 1, 1) 0) 5 5 1 2 2 2 2 6%nat)
    as (this1 & h1 & xt & outH & outW & pH & pW & ps & Hrun & Hx & _ & Hout
        & Hps & _ & _ & _ & _ & Hlen & _);
    [reflexivity | reflexivity | reflexivity | reflexivity
     | lia | lia | lia | lia | lia | lia | lia | lia |].
  exists this1, h1, xt, ps.
  split; [exact Hrun|]. split; [exact Hx|].
  pose proof Hrun as Hrun'. vm_compute in Hrun'. injection Hrun' as <- _.
  injection Hout as <- <-.
  split; [reflexivity|]. split; [exact Hps|exact Hlen].
Defined.

(** C5 on a 5 x 5 input whose rows hold 0..4, padded by one row and one
    column after, for the reducer ["max"]. *)
Lemma padInput_same_padded_witness :
  exists h' t',
    _padInput 0%nat
      (set_outputShape_inputPadding (pooling_layer (2, 2) (2, 2) "same")
         (3, 3, 1) (0, 1, 0, 1))
      (single_tensor (5, 5, 1)
         (r ← seqZ 0 5; c ← seqZ 0 5; [Fin (inject_Z r)]))
    = Return 0%nat
        (set_outputShape_inputPadding (pooling_layer (2, 2) (2, 2) "same")
           (3, 3, 1) (0, 1, 0, 1))
        h'
    /\ objs h' !! 0%nat = Some t'
    /\ nd_shape t' = (6, 6, 1)
    /\ nd_get h' t' 4 4 0 = Fin 4
    /\ nd_get h' t' 5 2 0 = NegInf.
Proof.
  destruct (padInput_same_padded (num := xnum) 0%nat
              (set_outputShape_inputPadding (pooling_layer (2, 2) (2, 2) "same")
                 (3, 3, 1) (0, 1, 0, 1))
              (single_tensor (5, 5, 1)
                 (r ← seqZ 0 5; c ← seqZ 0 5; [Fin (inject_Z r)]))
              (NdArray 0%nat (5, 5, 1) (5, 1, 1) 0) 5 5 1 0 1 0 1)
    as (h' & t' & Hrun & Hx & Hshape & Hin & Hout);
    [reflexivity | reflexivity | reflexivity | reflexivity
     | simpl; lia | lia | lia | lia | lia | lia | lia | lia |].
  exists h', t'. split; [exact Hrun|]. split; [exact Hx|].
  split; [exact Hshape|]. split.
  - exact (Hin 4 4 0 ltac:(lia) ltac:(lia) ltac:(lia)).
  - apply (Hout 5 2 0); [lia | lia | lia | lia | reflexivity].
Defined.

(** C6 as stated fails: a 2 x 2 input, window 2 x 2, stride 2, ['same']
    mode.  The derived padding is zero, yet after [_padInput] the tensor of
    [x] is backed by the new typed array 1 instead of the caller's 0. *)
Lemma padInput_zero_padding_counterexample :
  let layer := pooling_layer (2, 2) (2, 2) "same" in
  let this := set_outputShape_inputPadding layer (1, 1, 1) (0, 0, 0, 0) in
  let h := single_tensor (2, 2, 1) [Fin 1; Fin 2; Fin 3; Fin 4] in
  _calcOutputShape 0%nat layer h = Return tt this h
  /\ inputPadding this = Some (0, 0, 0, 0)
  /\ _padInput 0%nat this h <> Return 0%nat this h
  /\ exists h',
       _padInput 0%nat this h = Return 0%nat this h'
       /\ nd_data <$> objs h !! 0%nat = Some 0%nat
       /\ nd_data <$> objs h' !! 0%nat = Some 1%nat.
Proof.
  split; [vm_compute; reflexivity|]. split; [reflexivity|]. split.
  - vm_compute. discriminate.
  - eexists. split; [vm_compute; reflexivity|]. split; reflexivity.
Qed.

(** C6, as the code has it, on the same 2 x 2 input: in ['valid'] mode
    nothing changes; in ['same'] mode the copy has the same shape. *)
Lemma padInput_noop_or_copy_witness :
  _padInput 0%nat (pooling_layer (2, 2) (2, 2) "valid")
    (single_tensor (2, 2, 1) [Fin 1; Fin 2; Fin 3; Fin 4])
  = Return 0%nat (pooling_layer (2, 2) (2, 2) "valid")
      (single_tensor (2, 2, 1) [Fin 1; Fin 2; Fin 3; Fin 4])
  /\ exists h' t',
       _padInput 0%nat
         (set_outputShape_inputPadding (pooling_layer (2, 2) (2, 2) "same")
            (1, 1, 1) (0, 0, 0, 0))
         (single_tensor (2, 2, 1) [Fin 1; Fin 2; Fin 3; Fin 4])
       = Return 0%nat
           (set_outputShape_inputPadding (pooling_layer (2, 2) (2, 2) "same")
              (1, 1, 1) (0, 0, 0, 0))
           h'
       /\ objs h' !! 0%nat = Some t'
       /\ nd_shape t' = (2, 2, 1)
       /\ nd_get h' t' 1 0 0 = Fin 3
       /\ nd_data t' = 1%nat.
Proof.
  split.
  - apply (proj1 (padInput_noop_or_copy (num := xnum) 0%nat
                    (pooling_layer (2, 2) (2, 2) "valid")
                    (single_tensor (2, 2, 1) [Fin 1; Fin 2; Fin 3; Fin 4]))).
    discriminate.
  - destruct (proj2 (padInput_noop_or_copy (num := xnum) 0%nat
                       (set_outputShape_inputPadding
                          (pooling_layer (2, 2) (2, 2) "same")
                          (1, 1, 1) (0, 0, 0, 0))
                       (single_tensor (2, 2, 1) [Fin 1; Fin 2; Fin 3; Fin 4]))
                (NdArray 0%nat (2, 2, 1) (2, 1, 1) 0) 2 2 1)
      as (h' & t' & Hrun & Hx & Hshape & Hin & _ & Hdata & _);
      [reflexivity | reflexivity | reflexivity | reflexivity
       | simpl; lia | lia | lia | lia |].
    exists h', t'. split; [exact Hrun|]. split; [exact Hx|].
    split; [exact Hshape|]. split; [|exact Hdata].
    exact (Hin 1 0 0 ltac:(lia) ltac:(lia) ltac:(lia)).
Defined.

(** C7 on a layer whose reducer was set to ["min"]: the call throws, and
    the layer and the store are untouched. *)
Lemma call_InvalidConfiguration_witness :
  call 4 0%nat (set_poolingFunc (pooling_layer (2, 2) (2, 2) "valid") "min")
       (single_tensor (2, 2, 1) [Fin 1; Fin 2; Fin 3; Fin 4])
  = Throw InvalidConfiguration
      (set_poolingFunc (pooling_layer (2, 2) (2, 2) "valid") "min")
      (single_tensor (2, 2, 1) [Fin 1; Fin 2; Fin 3; Fin 4]).
Proof.
  apply (proj2 (call_InvalidConfiguration_iff (num := xnum) 4 0%nat
                  (set_poolingFunc (pooling_layer (2, 2) (2, 2) "valid") "min")
                  (single_tensor (2, 2, 1) [Fin 1; Fin 2; Fin 3; Fin 4])));
    discriminate.
Defined.



(** * Further properties *)

Section Cells.

Context {num : Type} `{Number num}.

Implicit Types (h : heap num) (this : _Pooling2D) (t : ndarray).

Lemma elem_of_indices2 i j d0 d1 :
  (i, j) ∈ indices2 (d0, d1) <-> 0 <= i < d0 /\ 0 <= j < d1.
Proof.
  unfold indices2. rewrite list_elem_of_bind. split.
  - intros (i' & Hj & Hi). apply elem_of_seqZ in Hi.
    apply list_elem_of_bind in Hj as (j' & Hp & Hj). apply elem_of_seqZ in Hj.
    apply list_elem_of_singleton in Hp. inversion Hp; subst. lia.
  - intros (Hi & Hj). exists i. split; [|apply elem_of_seqZ; lia].
    apply list_elem_of_bind. exists j. split; [|apply elem_of_seqZ; lia].
    by apply list_elem_of_singleton.
Qed.

(** Reading a window of the view cut out by [hi] and [lo]. *)
Lemma nd_get_window h (xt : ndarray) (i j a b c d0 d1 d2 : Z) :
  0 <= i -> 0 <= j ->
  nd_get h (nd_lo (nd_hi xt d0 d1 d2) i j 0) a b c
  = nd_get h xt (i + a) (j + b) c.
Proof.
  intros Hi Hj. unfold nd_get, nd_lo, nd_hi, flat.
  destruct (nd_shape xt) as [[? ?] ?]. simpl.
  destruct (nd_stride xt) as [[s0 s1] s2]. simpl.
  destruct (Z.leb_spec 0 i); [|lia]. destruct (Z.leb_spec 0 j); [|lia].
  destruct (bufs h !! nd_data xt); [|reflexivity]. f_equal. lia.
Qed.

(** One window of the loop nest, on the typed arrays: the patch array is
    overwritten, and the output array receives one value per channel,
    computed from the window of [xt]. *)
Lemma pool_window_bufs this (xt : ndarray) (ny : nat)
    (pH pW C kh kw outH outW nbr nbc i _i j _j : Z) h (yb pb : list num) :
  poolingFunc this = "max"%string \/ poolingFunc this = "average"%string ->
  poolSize this = (kh, kw) -> nd_shape xt = (pH, pW, C) ->
  (nd_data xt < ny)%nat ->
  0 <= i -> 0 <= j -> 0 <= kh -> 0 <= kw -> 0 <= C ->
  bufs h !! ny = Some yb -> bufs h !! S ny = Some pb ->
  length pb = Z.to_nat (kh * kw * C) ->
  let yt := NdArray ny (outH, outW, C) (outW * C, C, 1) 0 in
  let pt := NdArray (S ny) (kh, kw, C) (kw * C, C, 1) 0 in
  exists pb',
    length pb' = length pb
    /\ pool_window this xt yt pt nbr nbc i _i j _j h
       = Heap (<[ny := foldl (fun b c =>
                               buf_set b (flat yt _i _j c)
                                 (cell_value this nbr nbc
                                    ((fun '(a, b) =>
                                        nd_get h xt (i + a) (j + b) c)
                                       <$> indices2 (kh, kw))))
                            yb (seqZ 0 C)]>
                 (<[S ny := pb']> (bufs h)))
              (objs h).
Proof.
  intros Hf Hp Hshape Hdx Hi Hj Hkh Hkw HC Hyb Hpb Hlen yt pt.
  unfold pool_window. rewrite Hshape, Hp.
  set (src := nd_lo (nd_hi xt (i + kh) (j + kw) C) i j 0).
  assert (Hsrc : nd_data src = nd_data xt).
  { unfold src, nd_lo, nd_hi. destruct (nd_shape xt) as [[? ?] ?].
    simpl. destruct (nd_stride xt) as [[? ?] ?]. reflexivity. }
  set (kf := fun p : Z * Z * Z => let '(a, b, c) := p in flat pt a b c).
  set (vf := fun p : Z * Z * Z => let '(a, b, c) := p in nd_get h src a b c).
  set (pb' := foldl (fun b p => buf_set b (kf p) (vf p)) pb
                    (indices3 (kh, kw, C))).
  set (h1 := Heap (<[S ny := pb']> (bufs h)) (objs h)).
  assert (Hlen' : length pb' = length pb) by apply (length_writes kf vf).
  exists pb'. split; [exact Hlen'|].
  assert (Hh1 : ops_assign pt src h = h1).
  { rewrite (ops_assign_bufs pt src h pb) by (simpl; first [assumption | lia]).
    reflexivity. }
  rewrite Hh1.
  assert (Hpatch : forall a b c,
             0 <= a < kh -> 0 <= b < kw -> 0 <= c < C ->
             buf_get pb' (flat pt a b c) = nd_get h xt (i + a) (j + b) c).
  { intros a b c Ha Hb Hc.
    rewrite <- (nd_get_window h xt i j a b c (i + kh) (j + kw) C) by assumption.
    fold src.
    apply (writes_get kf vf (indices3 (kh, kw, C)) pb (a, b, c)).
    - apply elem_of_indices3. lia.
    - unfold kf, flat. simpl. rewrite Hlen.
      pose proof (rowmajor_bounds kh kw C a b c Ha Hb Hc). lia.
    - intros [[a' b'] c'] Hin He. apply elem_of_indices3 in Hin.
      unfold kf, flat in He. simpl in He.
      assert (a' = a /\ b' = b /\ c' = c) as (-> & -> & ->).
      { apply (rowmajor_inj kw C); lia. }
      reflexivity. }
  assert (Hh1y : bufs h1 !! ny = Some yb).
  { unfold h1. simpl. rewrite list_lookup_insert_ne by lia. exact Hyb. }
  assert (Hh1p : forall b' : list num,
             <[ny := b']> (bufs h1) !! S ny = Some pb').
  { intros b'. unfold h1. simpl. rewrite list_lookup_insert_ne by lia.
    apply list_lookup_insert_eq. eapply lookup_lt_Some. eassumption. }
  (* the value stored for channel [c] *)
  set (g := fun (h' : heap num) (p : Z * Z * Z) =>
              let '(_, _, c) := p in
              if String.eqb (poolingFunc this) "max"
              then ops_sup h' (nd_pick2 pt c)
              else ndiv (ops_sum h' (nd_pick2 pt c))
                        (of_Z ((kh - nbr) * (kw - nbc)))).
  assert (Hstep : forall h' c,
             (if String.eqb (poolingFunc this) "max"
              then nd_set h' yt _i _j c (ops_sup h' (nd_pick2 pt c))
              else if String.eqb (poolingFunc this) "average"
                   then nd_set h' yt _i _j c
                          (ndiv (ops_sum h' (nd_pick2 pt c))
                                (of_Z ((kh - nbr) * (kw - nbc))))
                   else h')
             = nd_set h' yt _i _j c (g h' (_i, _j, c))).
  { intros h' c. unfold g. destruct Hf as [-> | ->]; reflexivity. }
  rewrite (foldl_ext_in _ (fun h' c => nd_set h' yt _i _j c (g h' (_i, _j, c))))
    by (intros; apply Hstep).
  rewrite <- (foldl_fmap (fun h' p => let '(a, b, c) := p in
                                      nd_set h' yt a b c (g h' (a, b, c)))
                _ _ (fun c => (_i, _j, c))).
  rewrite <- (heap_insert_id h1 ny yb Hh1y) at 1.
  rewrite (foldl_nd_set yt g).
  2:{ simpl. eapply lookup_lt_Some. eassumption. }
  2:{ intros b' [[a b] c]. unfold g, ops_sup, ops_sum, nd2_get, nd_pick2.
      simpl. rewrite Hh1p.
      replace (bufs h1 !! S ny) with (Some pb'); [reflexivity|].
      symmetry. unfold h1. simpl. apply list_lookup_insert_eq.
      eapply lookup_lt_Some. eassumption. }
  unfold h1 at 2 3. simpl nd_data. simpl bufs. simpl objs. f_equal. f_equal.
  rewrite foldl_fmap. apply foldl_ext_in. intros b c Hc.
  apply elem_of_seqZ in Hc. f_equal.
  (* the reduction of the patch is the reduction of the window *)
  assert (Hcell : forall a b' : Z,
             (a, b') ∈ indices2 (kh, kw) ->
             nd2_get h1 (nd_pick2 pt c) a b' = nd_get h xt (i + a) (j + b') c).
  { intros a b' Hab. apply elem_of_indices2 in Hab.
    rewrite <- (Hpatch a b' c) by lia.
    unfold nd2_get, nd_pick2, h1, flat. simpl.
    rewrite list_lookup_insert_eq by (eapply lookup_lt_Some; eassumption).
    f_equal. lia. }
  unfold g, cell_value. rewrite Hp.
  destruct (String.eqb (poolingFunc this) "max").
  - unfold ops_sup, nsup. simpl nd2_shape. rewrite foldl_fmap.
    apply foldl_ext_in. intros s [a b'] Hab. rewrite (Hcell a b' Hab).
    reflexivity.
  - f_equal. unfold ops_sum, nsum. simpl nd2_shape. rewrite foldl_fmap.
    apply foldl_ext_in. intros s [a b'] Hab. rewrite (Hcell a b' Hab).
    reflexivity.
Qed.

Lemma pool_window_at_eq this (xt yt pt : ndarray)
    (pH pW C kh kw rb ra cb ca i _i j _j : Z) h :
  poolSize this = (kh, kw) -> nd_shape xt = (pH, pW, C) ->
  inputPadding this = Some (rb, ra, cb, ca) ->
  pool_window_at this xt yt pt (i, _i, j, _j) h
  = pool_window this xt yt pt (nbInPadding i kh pH rb ra)
      (nbInPadding j kw pW cb ca) i _i j _j h.
Proof.
  intros Hp Hshape Hpad. unfold pool_window_at.
  rewrite Hshape, Hp, Hpad. reflexivity.
Qed.

(** The whole loop nest, on the typed arrays: arrays other than the output
    and the patch are left alone, and the output array receives, window by
    window and channel by channel, the values computed from [xt]. *)
Lemma pool_fold_bufs this (xt : ndarray) (ny : nat)
    (pH pW C kh kw outH outW rb ra cb ca : Z)
    (ps : list (Z * Z * Z * Z)) :
  poolingFunc this = "max"%string \/ poolingFunc this = "average"%string ->
  poolSize this = (kh, kw) -> nd_shape xt = (pH, pW, C) ->
  inputPadding this = Some (rb, ra, cb, ca) ->
  (nd_data xt < ny)%nat ->
  0 <= kh -> 0 <= kw -> 0 <= C ->
  Forall (fun p : Z * Z * Z * Z => 0 <= p.1.1.1 /\ 0 <= p.1.2) ps ->
  let yt := NdArray ny (outH, outW, C) (outW * C, C, 1) 0 in
  let pt := NdArray (S ny) (kh, kw, C) (kw * C, C, 1) 0 in
  forall h (yb pb : list num),
    bufs h !! ny = Some yb -> bufs h !! S ny = Some pb ->
    length pb = Z.to_nat (kh * kw * C) ->
    let hl := foldl (fun h p => pool_window_at this xt yt pt p h) h ps in
    objs hl = objs h
    /\ length (bufs hl) = length (bufs h)
    /\ (forall k, k <> ny -> k <> S ny -> bufs hl !! k = bufs h !! k)
    /\ bufs hl !! ny
       = Some (foldl
                 (fun b (pc : Z * Z * Z * Z * Z) =>
                    buf_set b (flat yt pc.1.1.1.2 pc.1.2 pc.2)
                      (cell_value this
                         (nbInPadding pc.1.1.1.1 kh pH rb ra)
                         (nbInPadding pc.1.1.2 kw pW cb ca)
                         ((fun '(a, b) =>
                             nd_get h xt (pc.1.1.1.1 + a) (pc.1.1.2 + b) pc.2)
                            <$> indices2 (kh, kw))))
                 yb
                 (ps ≫= fun p => (fun c => (p, c)) <$> seqZ 0 C)).
Proof.
  intros Hf Hp Hshape Hpad Hdx Hkh Hkw HC Hps yt pt.
  induction ps as [|p ps IH]; intros h yb pb Hyb Hpb Hlen hl.
  { repeat split; try reflexivity. exact Hyb. }
  apply Forall_cons in Hps as [[Hi Hj] Hps]. specialize (IH Hps).
  destruct p as [[[i _i] j] _j]. simpl in Hi, Hj.
  unfold hl. clear hl.
  set (F := fun h p => pool_window_at this xt yt pt p h) in *.
  change (foldl F h ((i, _i, j, _j) :: ps))
    with (foldl F (pool_window_at this xt yt pt (i, _i, j, _j) h) ps).
  rewrite (pool_window_at_eq this xt yt pt pH pW C kh kw rb ra cb ca i _i j _j h)
    by assumption.
  destruct (pool_window_bufs this xt ny pH pW C kh kw outH outW
              (nbInPadding i kh pH rb ra) (nbInPadding j kw pW cb ca)
              i _i j _j h yb pb)
    as (pb1 & Hlen1 & Heq); try assumption.
  fold yt pt in Heq. rewrite Heq. clear Heq.
  set (yb1 := foldl _ yb (seqZ 0 C)).
  set (h1 := Heap (<[ny := yb1]> (<[S ny := pb1]> (bufs h))) (objs h)).
  assert (Hny : (ny < length (bufs h))%nat) by (eapply lookup_lt_Some; eassumption).
  assert (Hnp : (S ny < length (bufs h))%nat) by (eapply lookup_lt_Some; eassumption).
  assert (Hyb1 : bufs h1 !! ny = Some yb1).
  { simpl. apply list_lookup_insert_eq. rewrite length_insert. exact Hny. }
  assert (Hpb1 : bufs h1 !! S ny = Some pb1).
  { simpl. rewrite list_lookup_insert_ne by lia.
    apply list_lookup_insert_eq. exact Hnp. }
  destruct (IH h1 yb1 pb1 Hyb1 Hpb1 ltac:(lia)) as (Hobjs & Hlenb & Hother & Hy).
  assert (Hx1 : bufs h1 !! nd_data xt = bufs h !! nd_data xt).
  { simpl. rewrite !list_lookup_insert_ne by lia. reflexivity. }
  split; [exact Hobjs|].
  split.
  { etransitivity; [exact Hlenb|]. simpl. rewrite !length_insert. reflexivity. }
  split.
  { intros k Hk1 Hk2. etransitivity; [exact (Hother k Hk1 Hk2)|]. simpl.
    rewrite !list_lookup_insert_ne by lia. reflexivity. }
  etransitivity; [exact Hy|].
  f_equal. rewrite bind_cons, foldl_app.
  match goal with
  | |- _ = foldl ?G (foldl ?G yb ?first) ?rest =>
      replace (foldl G yb first) with yb1
        by (unfold yb1; rewrite foldl_fmap; reflexivity)
  end.
  apply foldl_ext_in. intros b [p c] _. simpl. f_equal. f_equal.
  apply list_fmap_ext. intros _ [a b'] _. unfold nd_get. rewrite Hx1.
  reflexivity.
Qed.

(** Shape derivation followed by padding, and the content of the tensor
    the loop nest then reads: the input, padded with the fill value of the
    reducer. *)
Lemma calc_pad_content x this h t (H0 W C kh kw sh sw : Z) :
  poolSize this = (kh, kw) -> strides this = (sh, sw) ->
  objs h !! x = Some t -> nd_shape t = (H0, W, C) ->
  (nd_data t < length (bufs h))%nat ->
  0 < H0 -> 0 < W -> 0 <= C -> 0 < kh -> 0 < kw -> 0 < sh -> 0 < sw ->
  let same := String.eqb (borderMode this) "same" in
  let outH := if same then (H0 + sh - 1) / sh else (H0 - kh + sh) / sh in
  let outW := if same then (W + sw - 1) / sw else (W - kw + sw) / sw in
  let padH := if same then Z.max 0 ((outH - 1) * sh + kh - H0) else 0 in
  let padW := if same then Z.max 0 ((outW - 1) * sw + kw - W) else 0 in
  let this1 := set_outputShape_inputPadding this (outH, outW, C)
                 (padH / 2, padH - padH / 2, padW / 2, padW - padW / 2) in
  let fill := if String.eqb (poolingFunc this) "max" then neg_inf else zero in
  exists h1 xt,
    (_calcOutputShape x ;; _padInput x) this h = Return x this1 h1
    /\ objs h1 !! x = Some xt
    /\ (nd_data xt < length (bufs h1))%nat
    /\ (length (bufs h) <= length (bufs h1))%nat
    /\ (forall k b, bufs h !! k = Some b -> bufs h1 !! k = Some b)
    /\ (forall y t', y <> x -> objs h !! y = Some t' -> objs h1 !! y = Some t')
    /\ (forall i j c,
          0 <= i < H0 + padH -> 0 <= j < W + padW -> 0 <= c < C ->
          nd_get h1 xt i j c = padded_get h t fill (padH / 2) (padW / 2) i j c).
Proof.
  intros Hp Hs Hx Ht Hd HH HW HC Hkh Hkw Hsh Hsw same outH outW padH padW this1 fill.
  unfold bind at 1.
  rewrite (_calcOutputShape_run x this h t H0 W C kh kw sh sw) by assumption.
  fold same outH outW padH padW this1.
  assert (HpadH : 0 <= padH) by (unfold padH; destruct same; lia).
  assert (HpadW : 0 <= padW) by (unfold padW; destruct same; lia).
  assert (HbH : 0 <= padH / 2 <= padH).
  { pose proof (Z.mul_div_le padH 2 ltac:(lia)).
    pose proof (Z.div_pos padH 2 HpadH ltac:(lia)). lia. }
  assert (HbW : 0 <= padW / 2 <= padW).
  { pose proof (Z.mul_div_le padW 2 ltac:(lia)).
    pose proof (Z.div_pos padW 2 HpadW ltac:(lia)). lia. }
  destruct same eqn:Esame.
  - apply String.eqb_eq in Esame.
    destruct (_padInput_same_spec x this1 h t H0 W C
                (padH / 2) (padH - padH / 2) (padW / 2) (padW - padW / 2))
      as (b' & Hrun & Hin & Hout); try assumption; try reflexivity; try lia.
    eexists _, _. split; [exact Hrun|]. split.
    { simpl. apply list_lookup_insert_eq. rewrite length_app.
      apply lookup_lt_Some in Hx. lia. }
    split; [simpl; rewrite length_app; simpl; lia|].
    split; [simpl; rewrite length_app; lia|].
    split; [intros k b Hk; simpl; by apply lookup_app_l_Some|].
    split.
    { intros y t' Hy Hyt. simpl. rewrite list_lookup_insert_ne by congruence.
      by apply lookup_app_l_Some. }
    intros i j c Hi Hj Hc. unfold padded_get. rewrite Ht.
    destruct ((padH / 2 <=? i) && (i <? padH / 2 + H0)
              && (padW / 2 <=? j) && (j <? padW / 2 + W)) eqn:Ereg.
    + apply andb_prop in Ereg as [Ereg E4]. apply andb_prop in Ereg as [Ereg E3].
      apply andb_prop in Ereg as [E1 E2].
      apply Z.leb_le in E1, E3. apply Z.ltb_lt in E2, E4.
      rewrite <- (Hin (i - padH / 2) (j - padW / 2) c) by lia.
      f_equal; lia.
    + apply (Hout i j c); lia.
  - apply String.eqb_neq in Esame.
    exists h, t. split.
    { unfold _padInput, bind, get_this.
      apply String.eqb_neq in Esame.
      change (borderMode this1) with (borderMode this). rewrite Esame.
      reflexivity. }
    split; [exact Hx|]. split; [exact Hd|]. split; [lia|].
    split; [auto|]. split; [auto|].
    intros i j c Hi Hj Hc. unfold padded_get. rewrite Ht.
    unfold padH, padW in *. change (0 / 2) with 0.
    destruct (Z.leb_spec 0 i); [|lia]. destruct (Z.ltb_spec i (0 + H0)); [|lia].
    destruct (Z.leb_spec 0 j); [|lia]. destruct (Z.ltb_spec j (0 + W)); [|lia].
    simpl. f_equal; lia.
Qed.

(** What [call] computes for channels-last ordering: it returns; the
    tensor of [x] is a new dense tensor of the derived shape; every cell of
    it is the reduction of its window of the padded input; and nothing that
    existed before the call is written to. *)
Lemma call_cells fuel x this h t (H0 W C kh kw sh sw : Z) :
  poolingFunc this = "max"%string \/ poolingFunc this = "average"%string ->
  String.eqb (dimOrdering this) "th" = false ->
  poolSize this = (kh, kw) -> strides this = (sh, sw) ->
  objs h !! x = Some t -> nd_shape t = (H0, W, C) ->
  (nd_data t < length (bufs h))%nat ->
  0 < H0 -> 0 < W -> 0 <= C -> 0 < kh -> 0 < kw -> 0 < sh -> 0 < sw ->
  borderMode this = "same"%string \/ (kh <= H0 + sh /\ kw <= W + sw) ->
  Z.max H0 W < Z.of_nat fuel ->
  let same := String.eqb (borderMode this) "same" in
  let outH := if same then (H0 + sh - 1) / sh else (H0 - kh + sh) / sh in
  let outW := if same then (W + sw - 1) / sw else (W - kw + sw) / sw in
  let padH := if same then Z.max 0 ((outH - 1) * sh + kh - H0) else 0 in
  let padW := if same then Z.max 0 ((outW - 1) * sw + kw - W) else 0 in
  let this1 := set_outputShape_inputPadding this (outH, outW, C)
                 (padH / 2, padH - padH / 2, padW / 2, padW - padW / 2) in
  let fill := if String.eqb (poolingFunc this) "max" then neg_inf else zero in
  exists h' yt,
    call fuel x this h = Return x this1 h'
    /\ objs h' !! x = Some yt
    /\ nd_shape yt = (outH, outW, C)
    /\ (length (bufs h) <= nd_data yt)%nat
    /\ (forall k b, bufs h !! k = Some b -> bufs h' !! k = Some b)
    /\ (forall y t', y <> x -> objs h !! y = Some t' -> objs h' !! y = Some t')
    /\ (forall r, 0 <= r < outH -> r * sh + kh <= H0 + padH)
    /\ (forall q, 0 <= q < outW -> q * sw + kw <= W + padW)
    /\ (forall r q c,
          0 <= r < outH -> 0 <= q < outW -> 0 <= c < C ->
          nd_get h' yt r q c
          = cell_value this
              (nbInPadding (r * sh) kh (H0 + padH) (padH / 2) (padH - padH / 2))
              (nbInPadding (q * sw) kw (W + padW) (padW / 2) (padW - padW / 2))
              (padded_window h t fill (padH / 2) (padW / 2) kh kw
                 (r * sh) (q * sw) c)).
Proof.
  intros Hf Hth Hp Hs Hx Ht Hd HH HW HC Hkh Hkw Hsh Hsw Hgeom Hfuel
    same outH outW padH padW this1 fill.
  (* the three descriptions of the state after padding *)
  destruct (calc_pad_positions x this h t H0 W C kh kw sh sw fuel)
    as (h1 & xt & Hrun & Hx1 & Hshape & Hps & Hrows & Hcols & _);
    try assumption.
  fold same outH outW padH padW this1 in Hrun, Hshape, Hps, Hrows, Hcols.
  destruct (calc_pad_content x this h t H0 W C kh kw sh sw)
    as (h1' & xt' & Hrun' & Hx1' & Hdx & Hlen1 & Hframe & Hobjs1 & Hcontent);
    try assumption.
  fold same outH outW padH padW this1 fill in Hrun', Hcontent.
  rewrite Hrun in Hrun'. injection Hrun' as <-.
  rewrite Hx1 in Hx1'. injection Hx1' as <-.
  pose proof (call_run fuel x this h t H0 W C kh kw sh sw Hf Hp Hs Hx) as Hcall.
  cbv zeta in Hcall. rewrite Hth in Hcall.
  destruct (Hcall Ht HH HW HC Hkh Hkw Hsh Hsw Hgeom Hfuel)
    as (this1' & h1' & xt' & outH' & outW' & ps' & Hrun' & Hx1' & Hout' & Hps'
        & Hret).
  clear Hcall.
  rewrite Hrun in Hrun'. injection Hrun' as <- <-.
  rewrite Hx1 in Hx1'. injection Hx1' as <-.
  injection Hout' as <- <-.
  rewrite Hps in Hps'. injection Hps' as <-.
  cbv zeta in Hret.
  set (ny := length (bufs h1)) in *.
  set (yt := NdArray ny (outH, outW, C) (outW * C, C, 1) 0) in *.
  set (pt := NdArray (S ny) (kh, kw, C) (kw * C, C, 1) 0) in *.
  set (y0 := replicate (Z.to_nat (outH * outW * C)) zero) in *.
  set (p0 := replicate (Z.to_nat (kh * kw * C)) zero) in *.
  set (ha := Heap ((bufs h1 ++ [y0]) ++ [p0]) ((objs h1 ++ [yt]) ++ [pt])) in *.
  set (ps := r ← seqZ 0 (Z.max 0 outH); c ← seqZ 0 (Z.max 0 outW);
             [(r * sh, r, c * sw, c)]) in *.
  assert (Hmem : forall p,
             p ∈ ps <-> exists r q, 0 <= r < Z.max 0 outH
                                    /\ 0 <= q < Z.max 0 outW
                                    /\ p = (r * sh, r, q * sw, q)).
  { intros p0'. unfold ps. rewrite list_elem_of_bind. split.
    - intros (r & Hin & Hr). apply elem_of_seqZ in Hr.
      apply list_elem_of_bind in Hin as (q & Hin & Hq). apply elem_of_seqZ in Hq.
      apply list_elem_of_singleton in Hin. exists r, q. split; [lia|].
      split; [lia|assumption].
    - intros (r & q & Hr & Hq & ->). exists r. split; [|apply elem_of_seqZ; lia].
      apply list_elem_of_bind. exists q. split; [|apply elem_of_seqZ; lia].
      by apply list_elem_of_singleton. }
  assert (Hnonneg : Forall (fun p : Z * Z * Z * Z => 0 <= p.1.1.1 /\ 0 <= p.1.2) ps).
  { apply Forall_forall. intros p0' Hin. apply Hmem in Hin as (r & q & Hr & Hq & ->).
    simpl. nia. }
  assert (Hya : bufs ha !! ny = Some y0).
  { simpl. rewrite lookup_app_l by (rewrite length_app; simpl; lia).
    apply list_lookup_middle. reflexivity. }
  assert (Hpa : bufs ha !! S ny = Some p0).
  { simpl. apply list_lookup_middle. rewrite length_app. simpl. lia. }
  destruct (pool_fold_bufs this1 xt ny (H0 + padH) (W + padW) C kh kw outH outW
              (padH / 2) (padH - padH / 2) (padW / 2) (padW - padW / 2) ps
              Hf Hp Hshape eq_refl Hdx ltac:(lia) ltac:(lia) HC Hnonneg
              ha y0 p0 Hya Hpa (length_replicate _ _))
    as (Hobjs & Hlenb & Hother & Hy).
  fold yt pt in Hobjs, Hlenb, Hother, Hy.
  set (hl := foldl (fun h p => pool_window_at this1 xt yt pt p h) ha ps) in *.
  assert (Hxa : forall i j c, nd_get ha xt i j c = nd_get h1 xt i j c).
  { intros. unfold nd_get, ha. simpl.
    rewrite <- app_assoc, lookup_app_l by assumption. reflexivity. }
  eexists _, yt. split; [exact Hret|].
  split.
  { simpl. apply list_lookup_insert_eq. rewrite Hobjs. simpl.
    rewrite !length_app. apply lookup_lt_Some in Hx1. lia. }
  split; [reflexivity|]. split; [exact Hlen1|].
  split.
  { intros k b Hk. simpl.
    assert (k < ny)%nat by (apply lookup_lt_Some in Hk; unfold ny; lia).
    rewrite Hother by lia. unfold ha. simpl.
    rewrite <- app_assoc. apply lookup_app_l_Some. auto. }
  split.
  { intros y t' Hy' Hyt. simpl. rewrite list_lookup_insert_ne by congruence.
    rewrite Hobjs. unfold ha. simpl. rewrite <- app_assoc.
    apply lookup_app_l_Some. auto. }
  split; [intros r Hr; apply (Hrows r); lia|].
  split; [intros q Hq; apply (Hcols q); lia|].
  intros r q c Hr Hq Hc.
  assert (Hget : nd_get (Heap (bufs hl) (<[x := yt]> (objs hl))) yt r q c
                 = buf_get
                     (foldl
                        (fun b (pc : Z * Z * Z * Z * Z) =>
                           buf_set b (flat yt pc.1.1.1.2 pc.1.2 pc.2)
                             (cell_value this1
                                (nbInPadding pc.1.1.1.1 kh (H0 + padH)
                                   (padH / 2) (padH - padH / 2))
                                (nbInPadding pc.1.1.2 kw (W + padW)
                                   (padW / 2) (padW - padW / 2))
                                ((fun '(a, b) =>
                                    nd_get ha xt (pc.1.1.1.1 + a)
                                      (pc.1.1.2 + b) pc.2)
                                   <$> indices2 (kh, kw))))
                        y0 (ps ≫= fun p => (fun c => (p, c)) <$> seqZ 0 C))
                     (flat yt r q c)).
  { unfold nd_get. change (nd_data yt) with ny.
    change (bufs (Heap (bufs hl) (<[x := yt]> (objs hl)))) with (bufs hl).
    unfold loc. rewrite Hy. reflexivity. }
  rewrite Hget. clear Hget.
  set (kf := fun pc : Z * Z * Z * Z * Z => flat yt pc.1.1.1.2 pc.1.2 pc.2).
  set (vf := fun pc : Z * Z * Z * Z * Z =>
               cell_value this1
                 (nbInPadding pc.1.1.1.1 kh (H0 + padH) (padH / 2) (padH - padH / 2))
                 (nbInPadding pc.1.1.2 kw (W + padW) (padW / 2) (padW - padW / 2))
                 ((fun '(a, b) =>
                     nd_get ha xt (pc.1.1.1.1 + a) (pc.1.1.2 + b) pc.2)
                    <$> indices2 (kh, kw))).
  assert (Hall : forall pc,
             pc ∈ (ps ≫= fun p => (fun c => (p, c)) <$> seqZ 0 C) <->
             exists r' q' c', 0 <= r' < Z.max 0 outH /\ 0 <= q' < Z.max 0 outW
                              /\ 0 <= c' < C
                              /\ pc = ((r' * sh, r', q' * sw, q'), c')).
  { intros pc. rewrite list_elem_of_bind. split.
    - intros (p & Hin & Hp'). apply Hmem in Hp' as (r' & q' & Hr' & Hq' & ->).
      apply list_elem_of_fmap in Hin as (c' & -> & Hc'). apply elem_of_seqZ in Hc'.
      exists r', q', c'. repeat split; try lia.
    - intros (r' & q' & c' & Hr' & Hq' & Hc' & ->).
      exists (r' * sh, r', q' * sw, q'). split.
      + apply list_elem_of_fmap. exists c'. split; [reflexivity|].
        apply elem_of_seqZ. lia.
      + apply Hmem. exists r', q'. auto. }
  change (flat yt r q c) with (kf ((r * sh, r, q * sw, q), c)).
  rewrite (writes_get kf vf).
  - unfold vf. simpl. unfold padded_window.
    change (cell_value this1) with (cell_value this). f_equal.
    apply list_fmap_ext. intros n [a b] Hab.
    apply list_elem_of_lookup_2 in Hab. apply elem_of_indices2 in Hab.
    rewrite Hxa. apply Hcontent; [| |lia].
    + pose proof (proj2 (Hrows r ltac:(lia)) ltac:(lia)). nia.
    + pose proof (proj2 (Hcols q ltac:(lia)) ltac:(lia)). nia.
  - apply Hall. exists r, q, c. repeat split; lia.
  - unfold kf, flat. simpl. unfold y0. rewrite length_replicate.
    pose proof (rowmajor_bounds outH outW C r q c Hr Hq Hc).
    rewrite Z2Nat.id by nia. lia.
  - intros pc Hin He. apply Hall in Hin as (r' & q' & c' & Hr' & Hq' & Hc' & ->).
    unfold kf, flat in He. simpl in He.
    assert (r' = r /\ q' = q /\ c' = c) as (-> & -> & ->).
    { apply (rowmajor_inj outW C); lia. }
    reflexivity.
Qed.

(** X1: max pooling, channels-last.  When no derived size is negative,
    [call] returns; the output has the derived shape, and every cell
    [(r, q, c)] of it is the running maximum, from [-Infinity], of the
    [kh * kw] values of the window at [(r * sh, q * sw)] of the input
    padded with [-Infinity] by the derived padding. *)
Theorem call_max_cells fuel x this h t (H0 W C kh kw sh sw : Z) :
  poolingFunc this = "max"%string -> dimOrdering this <> "th"%string ->
  poolSize this = (kh, kw) -> strides this = (sh, sw) ->
  objs h !! x = Some t -> nd_shape t = (H0, W, C) ->
  (nd_data t < length (bufs h))%nat ->
  0 < H0 -> 0 < W -> 0 <= C -> 0 < kh -> 0 < kw -> 0 < sh -> 0 < sw ->
  borderMode this = "same"%string \/ (kh <= H0 + sh /\ kw <= W + sw) ->
  Z.max H0 W < Z.of_nat fuel ->
  let same := String.eqb (borderMode this) "same" in
  let outH := if same then (H0 + sh - 1) / sh else (H0 - kh + sh) / sh in
  let outW := if same then (W + sw - 1) / sw else (W - kw + sw) / sw in
  let padH := if same then Z.max 0 ((outH - 1) * sh + kh - H0) else 0 in
  let padW := if same then Z.max 0 ((outW - 1) * sw + kw - W) else 0 in
  let rb := padH / 2 in
  let cb := padW / 2 in
  exists this' h' yt,
    call fuel x this h = Return x this' h'
    /\ objs h' !! x = Some yt
    /\ nd_shape yt = (outH, outW, C)
    /\ outputShape this' = Some (outH, outW, C)
    /\ inputPadding this' = Some (rb, padH - rb, cb, padW - cb)
    /\ forall r q c,
         0 <= r < outH -> 0 <= q < outW -> 0 <= c < C ->
         nd_get h' yt r q c
         = nsup (padded_window h t neg_inf rb cb kh kw (r * sh) (q * sw) c).
Proof.
  intros Hmax Hth Hp Hs Hx Ht Hd HH HW HC Hkh Hkw Hsh Hsw Hgeom Hfuel
    same outH outW padH padW rb cb.
  apply String.eqb_neq in Hth.
  destruct (call_cells fuel x this h t H0 W C kh kw sh sw)
    as (h' & yt & Hret & Hx' & Hshape & _ & _ & _ & _ & _ & Hcell);
    try assumption; [left; exact Hmax|].
  eexists _, h', yt.
  split; [exact Hret|]. split; [exact Hx'|]. split; [exact Hshape|].
  split; [reflexivity|]. split; [reflexivity|].
  intros r q c Hr Hq Hc. rewrite (Hcell r q c Hr Hq Hc).
  unfold cell_value. rewrite Hp, Hmax. reflexivity.
Qed.

(** X2: average pooling, channels-last.  When no derived size is negative,
    [call] returns; the output has the derived shape, and every cell
    [(r, q, c)] of it is the sum, from [0], of the [kh * kw] values of the
    window at [(r * sh, q * sw)] of the input padded with zeros, divided by
    [(kh - rows counted as padding) * (kw - columns counted as padding)]. *)
Theorem call_average_cells fuel x this h t (H0 W C kh kw sh sw : Z) :
  poolingFunc this = "average"%string -> dimOrdering this <> "th"%string ->
  poolSize this = (kh, kw) -> strides this = (sh, sw) ->
  objs h !! x = Some t -> nd_shape t = (H0, W, C) ->
  (nd_data t < length (bufs h))%nat ->
  0 < H0 -> 0 < W -> 0 <= C -> 0 < kh -> 0 < kw -> 0 < sh -> 0 < sw ->
  borderMode this = "same"%string \/ (kh <= H0 + sh /\ kw <= W + sw) ->
  Z.max H0 W < Z.of_nat fuel ->
  let same := String.eqb (borderMode this) "same" in
  let outH := if same then (H0 + sh - 1) / sh else (H0 - kh + sh) / sh in
  let outW := if same then (W + sw - 1) / sw else (W - kw + sw) / sw in
  let padH := if same then Z.max 0 ((outH - 1) * sh + kh - H0) else 0 in
  let padW := if same then Z.max 0 ((outW - 1) * sw + kw - W) else 0 in
  let rb := padH / 2 in
  let cb := padW / 2 in
  exists this' h' yt,
    call fuel x this h = Return x this' h'
    /\ objs h' !! x = Some yt
    /\ nd_shape yt = (outH, outW, C)
    /\ outputShape this' = Some (outH, outW, C)
    /\ inputPadding this' = Some (rb, padH - rb, cb, padW - cb)
    /\ forall r q c,
         0 <= r < outH -> 0 <= q < outW -> 0 <= c < C ->
         nd_get h' yt r q c
         = ndiv (nsum (padded_window h t zero rb cb kh kw (r * sh) (q * sw) c))
                (of_Z ((kh - nbInPadding (r * sh) kh (H0 + padH) rb (padH - rb))
                       * (kw - nbInPadding (q * sw) kw (W + padW) cb
                                 (padW - cb)))).
Proof.
  intros Havg Hth Hp Hs Hx Ht Hd HH HW HC Hkh Hkw Hsh Hsw Hgeom Hfuel
    same outH outW padH padW rb cb.
  apply String.eqb_neq in Hth.
  destruct (call_cells fuel x this h t H0 W C kh kw sh sw)
    as (h' & yt & Hret & Hx' & Hshape & _ & _ & _ & _ & _ & Hcell);
    try assumption; [right; exact Havg|].
  eexists _, h', yt.
  split; [exact Hret|]. split; [exact Hx'|]. split; [exact Hshape|].
  split; [reflexivity|]. split; [reflexivity|].
  intros r q c Hr Hq Hc. rewrite (Hcell r q c Hr Hq Hc).
  unfold cell_value. rewrite Hp, Havg. reflexivity.
Qed.

(** X3: channels-last, outside ['same'] mode, with a window that exceeds the
    input by at most one stride (so that no derived size is negative):
    [call] returns, every window lies inside the input, nothing is padded,
    and a cell is the reduction of the [kh * kw] input values of its
    window: their running maximum for ["max"], their sum divided by
    [kh * kw] for ["average"]. *)
Theorem call_valid_cells fuel x this h t (H0 W C kh kw sh sw : Z) :
  borderMode this <> "same"%string ->
  poolingFunc this = "max"%string \/ poolingFunc this = "average"%string ->
  dimOrdering this <> "th"%string ->
  poolSize this = (kh, kw) -> strides this = (sh, sw) ->
  objs h !! x = Some t -> nd_shape t = (H0, W, C) ->
  (nd_data t < length (bufs h))%nat ->
  0 < H0 -> 0 < W -> 0 <= C -> 0 < kh -> 0 < kw -> 0 < sh -> 0 < sw ->
  kh <= H0 + sh -> kw <= W + sw ->
  Z.max H0 W < Z.of_nat fuel ->
  exists this' h' yt,
    call fuel x this h = Return x this' h'
    /\ objs h' !! x = Some yt
    /\ nd_shape yt = ((H0 - kh + sh) / sh, (W - kw + sw) / sw, C)
    /\ inputPadding this' = Some (0, 0, 0, 0)
    /\ forall r q c,
         0 <= r < (H0 - kh + sh) / sh -> 0 <= q < (W - kw + sw) / sw ->
         0 <= c < C ->
         r * sh + kh <= H0 /\ q * sw + kw <= W
         /\ let vals := (fun '(a, b) => nd_get h t (r * sh + a) (q * sw + b) c)
                          <$> indices2 (kh, kw) in
            (poolingFunc this = "max"%string -> nd_get h' yt r q c = nsup vals)
            /\ (poolingFunc this = "average"%string ->
                nd_get h' yt r q c = ndiv (nsum vals) (of_Z (kh * kw))).
Proof.
  intros Hb Hf Hth Hp Hs Hx Ht Hd HH HW HC Hkh Hkw Hsh Hsw HgH HgW Hfuel.
  assert (Hgeom : borderMode this = "same"%string
                  \/ (kh <= H0 + sh /\ kw <= W + sw)) by (right; split; assumption).
  apply String.eqb_neq in Hth. apply String.eqb_neq in Hb.
  destruct (call_cells fuel x this h t H0 W C kh kw sh sw)
    as (h' & yt & Hret & Hx' & Hshape & _ & _ & _ & Hrows & Hcols & Hcell);
    try assumption.
  rewrite Hb in Hret, Hshape, Hrows, Hcols, Hcell.
  cbv iota in Hret, Hshape, Hrows, Hcols, Hcell.
  change (0 / 2) with 0 in Hret, Hcell. change (0 - 0) with 0 in Hret, Hcell.
  rewrite Z.add_0_r in Hrows, Hcols.
  eexists _, h', yt.
  split; [exact Hret|]. split; [exact Hx'|]. split; [exact Hshape|].
  split; [reflexivity|].
  intros r q c Hr Hq Hc.
  pose proof (Hrows r Hr) as Hfr. pose proof (Hcols q Hq) as Hfq.
  split; [exact Hfr|]. split; [exact Hfq|].
  assert (Hvals : padded_window h t
                    (if String.eqb (poolingFunc this) "max" then neg_inf else zero)
                    0 0 kh kw (r * sh) (q * sw) c
                  = (fun '(a, b) => nd_get h t (r * sh + a) (q * sw + b) c)
                      <$> indices2 (kh, kw)).
  { unfold padded_window. apply list_fmap_ext. intros n [a b] Hab.
    apply list_elem_of_lookup_2 in Hab. apply elem_of_indices2 in Hab.
    unfold padded_get. rewrite Ht.
    destruct (Z.leb_spec 0 (r * sh + a)); [|lia].
    destruct (Z.ltb_spec (r * sh + a) (0 + H0)); [|lia].
    destruct (Z.leb_spec 0 (q * sw + b)); [|lia].
    destruct (Z.ltb_spec (q * sw + b) (0 + W)); [|lia].
    simpl. f_equal; lia. }
  assert (Hnb : forall i k n, 0 <= i -> i + k <= n -> nbInPadding i k (n + 0) 0 0 = 0).
  { intros i k n Hi Hik. unfold nbInPadding.
    destruct (Z.ltb_spec i 0); [lia|].
    destruct (Z.gtb_spec (i + k) (n + 0 - 0)); [lia|reflexivity]. }
  rewrite (Hcell r q c Hr Hq Hc), Hvals.
  rewrite (Hnb (r * sh) kh H0) by nia. rewrite (Hnb (q * sw) kw W) by nia.
  unfold cell_value. rewrite Hp, !Z.sub_0_r.
  split; intros ->; reflexivity.
Qed.

(** X4: channels-last, when no derived size is negative: [call] returns
    and does not write to anything that existed before it: every
    typed array and every other tensor object is as it was, the view the
    caller's tensor had still reads the same values, and the tensor of [x]
    is now backed by an array that did not exist before. *)
Theorem call_frame fuel x this h t (H0 W C kh kw sh sw : Z) :
  poolingFunc this = "max"%string \/ poolingFunc this = "average"%string ->
  dimOrdering this <> "th"%string ->
  poolSize this = (kh, kw) -> strides this = (sh, sw) ->
  objs h !! x = Some t -> nd_shape t = (H0, W, C) ->
  (nd_data t < length (bufs h))%nat ->
  0 < H0 -> 0 < W -> 0 <= C -> 0 < kh -> 0 < kw -> 0 < sh -> 0 < sw ->
  borderMode this = "same"%string \/ (kh <= H0 + sh /\ kw <= W + sw) ->
  Z.max H0 W < Z.of_nat fuel ->
  exists this' h' yt,
    call fuel x this h = Return x this' h'
    /\ objs h' !! x = Some yt
    /\ (length (bufs h) <= nd_data yt)%nat
    /\ nd_data yt <> nd_data t
    /\ (forall k b, bufs h !! k = Some b -> bufs h' !! k = Some b)
    /\ (forall y t', y <> x -> objs h !! y = Some t' -> objs h' !! y = Some t')
    /\ (forall i j c, nd_get h' t i j c = nd_get h t i j c).
Proof.
  intros Hf Hth Hp Hs Hx Ht Hd HH HW HC Hkh Hkw Hsh Hsw Hgeom Hfuel.
  apply String.eqb_neq in Hth.
  destruct (call_cells fuel x this h t H0 W C kh kw sh sw)
    as (h' & yt & Hret & Hx' & _ & Hfresh & Hbufs & Hobjs & _);
    try assumption.
  eexists _, h', yt.
  split; [exact Hret|]. split; [exact Hx'|]. split; [exact Hfresh|].
  split; [lia|]. split; [exact Hbufs|]. split; [exact Hobjs|].
  intros i j c. unfold nd_get.
  destruct (bufs h !! nd_data t) as [b|] eqn:Eb.
  - unfold loc in *. rewrite (Hbufs _ _ Eb). reflexivity.
  - apply lookup_ge_None in Eb. lia.
Qed.

(** ** The padding count and the divisor *)

(** On one axis: for every window the loop visits, the count of lines
    125-130 is non-negative and smaller than the window. *)
Lemma nbInPadding_bound (same : bool) (H0 kh sh r : Z) :
  0 < H0 -> 0 < kh -> 0 < sh ->
  let outH := if same then (H0 + sh - 1) / sh else (H0 - kh + sh) / sh in
  let padH := if same then Z.max 0 ((outH - 1) * sh + kh - H0) else 0 in
  0 <= r < outH ->
  0 <= nbInPadding (r * sh) kh (H0 + padH / 2 + (padH - padH / 2))
         (padH / 2) (padH - padH / 2) < kh
  /\ (outH - 1) * sh < H0
  /\ 0 <= padH / 2 <= padH - padH / 2
  /\ padH - padH / 2 <= padH / 2 + 1
  /\ padH < kh.
Proof.
  intros HH Hkh Hsh outH padH Hr.
  assert (Hhalf : 0 <= padH -> 0 <= padH / 2 /\ 2 * (padH / 2) <= padH < 2 * (padH / 2) + 2).
  { intros. pose proof (Z.mul_div_le padH 2 ltac:(lia)).
    pose proof (Z.mul_succ_div_gt padH 2 ltac:(lia)).
    pose proof (Z.div_pos padH 2 ltac:(lia) ltac:(lia)). lia. }
  destruct same.
  - pose proof (Z.mul_div_le (H0 + sh - 1) sh Hsh) as Hlo.
    pose proof (Z.mul_succ_div_gt (H0 + sh - 1) sh Hsh) as Hhi.
    fold outH in Hlo, Hhi. clearbody outH.
    assert (Hceil : (outH - 1) * sh < H0) by nia.
    assert (Hpad : 0 <= padH < kh) by (unfold padH; lia).
    destruct (Hhalf ltac:(lia)) as (Hb0 & Hb1). clearbody padH.
    split; [|lia].
    unfold nbInPadding.
    destruct (Z.ltb_spec (r * sh) (padH / 2)); [nia|].
    destruct (Z.gtb_spec (r * sh + kh)
                (H0 + padH / 2 + (padH - padH / 2) - (padH - padH / 2)));
      [|lia].
    nia.
  - pose proof (Z.mul_div_le (H0 - kh + sh) sh Hsh) as Hlo.
    pose proof (Z.mul_succ_div_gt (H0 - kh + sh) sh Hsh) as Hhi.
    fold outH in Hlo, Hhi. clearbody outH. unfold padH.
    change (0 / 2) with 0.
    split; [|nia].
    unfold nbInPadding.
    destruct (Z.ltb_spec (r * sh) 0); [nia|].
    destruct (Z.gtb_spec (r * sh + kh) (H0 + 0 + (0 - 0) - (0 - 0))); [nia|lia].
Qed.

(** X5: for every window position of the derived output, in either mode,
    the rows and columns counted as padding are fewer than the window's, so
    the divisor of average pooling is at least 1 and at most [kh * kw]: the
    layer never divides by zero or by a negative count. *)
Theorem effective_cells_positive x this h t (H0 W C kh kw sh sw : Z) :
  poolSize this = (kh, kw) -> strides this = (sh, sw) ->
  objs h !! x = Some t -> nd_shape t = (H0, W, C) ->
  0 < H0 -> 0 < W -> 0 < kh -> 0 < kw -> 0 < sh -> 0 < sw ->
  exists this1 outH outW rb ra cb ca,
    _calcOutputShape x this h = Return tt this1 h
    /\ outputShape this1 = Some (outH, outW, C)
    /\ inputPadding this1 = Some (rb, ra, cb, ca)
    /\ forall r q,
         0 <= r < outH -> 0 <= q < outW ->
         let nbRowInPadding := nbInPadding (r * sh) kh (H0 + rb + ra) rb ra in
         let nbColInPadding := nbInPadding (q * sw) kw (W + cb + ca) cb ca in
         0 <= nbRowInPadding < kh /\ 0 <= nbColInPadding < kw
         /\ 1 <= (kh - nbRowInPadding) * (kw - nbColInPadding) <= kh * kw.
Proof.
  intros Hp Hs Hx Ht HH HW Hkh Hkw Hsh Hsw.
  rewrite (_calcOutputShape_run x this h t H0 W C kh kw sh sw) by assumption.
  eexists _, _, _, _, _, _, _. split; [reflexivity|].
  split; [reflexivity|]. split; [reflexivity|].
  intros r q Hr Hq.
  destruct (nbInPadding_bound (String.eqb (borderMode this) "same")
              H0 kh sh r HH Hkh Hsh Hr) as (Hnr & _).
  destruct (nbInPadding_bound (String.eqb (borderMode this) "same")
              W kw sw q HW Hkw Hsw Hq) as (Hnq & _).
  cbv zeta. split; [exact Hnr|]. split; [exact Hnq|]. nia.
Qed.

(** X6: in ['same'] mode the derived output extent is the ceiling of
    [H / sh], whatever the window; the total padding is smaller than the
    window, its leading half is at most the trailing half and at most one
    less; and when there is padding the last window ends exactly at the
    padded edge. *)
Theorem same_mode_extent x this h t (H0 W C kh kw sh sw : Z) :
  borderMode this = "same"%string ->
  poolSize this = (kh, kw) -> strides this = (sh, sw) ->
  objs h !! x = Some t -> nd_shape t = (H0, W, C) ->
  0 < H0 -> 0 < W -> 0 < kh -> 0 < kw -> 0 < sh -> 0 < sw ->
  exists this1 outH outW rb ra cb ca,
    _calcOutputShape x this h = Return tt this1 h
    /\ outputShape this1 = Some (outH, outW, C)
    /\ inputPadding this1 = Some (rb, ra, cb, ca)
    /\ (outH - 1) * sh < H0 <= outH * sh
    /\ (outW - 1) * sw < W <= outW * sw
    /\ 0 <= rb <= ra /\ ra <= rb + 1 /\ rb + ra < kh
    /\ 0 <= cb <= ca /\ ca <= cb + 1 /\ cb + ca < kw
    /\ (0 < rb + ra -> (outH - 1) * sh + kh = H0 + rb + ra)
    /\ (0 < cb + ca -> (outW - 1) * sw + kw = W + cb + ca)
    /\ (rb + ra = 0 -> (outH - 1) * sh + kh <= H0)
    /\ (cb + ca = 0 -> (outW - 1) * sw + kw <= W).
Proof.
  intros Hb Hp Hs Hx Ht HH HW Hkh Hkw Hsh Hsw.
  rewrite (_calcOutputShape_run x this h t H0 W C kh kw sh sw) by assumption.
  rewrite Hb. simpl String.eqb. cbv iota zeta.
  eexists _, _, _, _, _, _, _. split; [reflexivity|].
  split; [reflexivity|]. split; [reflexivity|].
  assert (Haxis : forall n k s, 0 < n -> 0 < k -> 0 < s ->
             let o := (n + s - 1) / s in
             let p := Z.max 0 ((o - 1) * s + k - n) in
             (o - 1) * s < n <= o * s
             /\ 0 <= p / 2 <= p - p / 2 /\ p - p / 2 <= p / 2 + 1
             /\ p / 2 + (p - p / 2) < k
             /\ (0 < p / 2 + (p - p / 2) ->
                 (o - 1) * s + k = n + p / 2 + (p - p / 2))
             /\ (p / 2 + (p - p / 2) = 0 -> (o - 1) * s + k <= n)).
  { intros n k s Hn Hk Hs' o p.
    pose proof (Z.mul_div_le (n + s - 1) s Hs') as Hlo.
    pose proof (Z.mul_succ_div_gt (n + s - 1) s Hs') as Hhi.
    fold o in Hlo, Hhi. clearbody o.
    assert ((o - 1) * s < n <= o * s) by nia.
    assert (0 <= p < k) by (unfold p; lia).
    pose proof (Z.mul_div_le p 2 ltac:(lia)).
    pose proof (Z.mul_succ_div_gt p 2 ltac:(lia)).
    pose proof (Z.div_pos p 2 ltac:(lia) ltac:(lia)).
    repeat split; try lia. }
  destruct (Haxis H0 kh sh HH Hkh Hsh) as (? & ? & ? & ? & ? & ?).
  destruct (Haxis W kw sw HW Hkw Hsw) as (? & ? & ? & ? & ? & ?).
  repeat split; try lia; assumption.
Qed.

(** ** Padding cells do not take part in the reduction *)

(** The running maximum skips values equal to [-Infinity], provided
    [-Infinity > s] is false for every [s]. *)
Lemma nsup_skip_fill {A} (P : A -> Prop) `{!forall a, Decision (P a)}
    (f g : A -> num) (l : list A) :
  (forall s, ngt neg_inf s = false) ->
  (forall a, a ∈ l -> P a -> f a = g a) ->
  (forall a, a ∈ l -> ~ P a -> f a = neg_inf) ->
  forall s,
    foldl (fun s v => if ngt v s then v else s) s (f <$> l)
    = foldl (fun s v => if ngt v s then v else s) s (g <$> filter P l).
Proof.
  intros Hlaw. induction l as [|a l IH]; intros Hin Hout s; [reflexivity|].
  rewrite fmap_cons, filter_cons. simpl foldl.
  destruct (decide (P a)) as [HP|HP].
  - rewrite fmap_cons. simpl foldl. rewrite (Hin a) by (constructor || assumption).
    apply IH; intros; [apply Hin|apply Hout]; try assumption; by constructor.
  - rewrite (Hout a) by (constructor || assumption). rewrite Hlaw.
    apply IH; intros; [apply Hin|apply Hout]; try assumption; by constructor.
Qed.

(** The running sum skips zeros, provided adding zero to zero, or to a sum,
    changes nothing. *)
Lemma nsum_skip_fill {A} (P : A -> Prop) `{!forall a, Decision (P a)}
    (f g : A -> num) (l : list A) :
  nadd zero zero = zero ->
  (forall s v, nadd (nadd s v) zero = nadd s v) ->
  (forall a, a ∈ l -> P a -> f a = g a) ->
  (forall a, a ∈ l -> ~ P a -> f a = zero) ->
  forall s,
    s = zero \/ (exists u v, s = nadd u v) ->
    foldl nadd s (f <$> l) = foldl nadd s (g <$> filter P l).
Proof.
  intros Hz0 Hz. induction l as [|a l IH]; intros Hin Hout s Hs; [reflexivity|].
  rewrite fmap_cons, filter_cons. simpl foldl.
  destruct (decide (P a)) as [HP|HP].
  - rewrite fmap_cons. simpl foldl. rewrite (Hin a) by (constructor || assumption).
    apply IH; [intros; apply Hin|intros; apply Hout|right; eauto];
      try assumption; by constructor.
  - rewrite (Hout a) by (constructor || assumption).
    assert (nadd s zero = s) as ->.
    { destruct Hs as [-> | (u & v & ->)]; [exact Hz0|apply Hz]. }
    apply IH; [intros; apply Hin|intros; apply Hout|exact Hs];
      try assumption; by constructor.
Qed.

(** The padded window and its genuine part. *)
Lemma padded_window_split h t (fill : num) (H0 W C rb cb kh kw i j c : Z) :
  nd_shape t = (H0, W, C) ->
  let P := fun p : Z * Z =>
             let '(a, b) := p in
             rb <= i + a < rb + H0 /\ cb <= j + b < cb + W in
  let f := fun p : Z * Z =>
             let '(a, b) := p in padded_get h t fill rb cb (i + a) (j + b) c in
  let g := fun p : Z * Z =>
             let '(a, b) := p in nd_get h t (i + a - rb) (j + b - cb) c in
  (forall p, P p -> f p = g p) /\ (forall p, ~ P p -> f p = fill).
Proof.
  intros Ht P f g. split; intros [a b] HP; unfold f, g, padded_get; rewrite Ht.
  - destruct HP as [[? ?] [? ?]].
    destruct (Z.leb_spec rb (i + a)); [|lia].
    destruct (Z.ltb_spec (i + a) (rb + H0)); [|lia].
    destruct (Z.leb_spec cb (j + b)); [|lia].
    destruct (Z.ltb_spec (j + b) (cb + W)); [|lia].
    reflexivity.
  - destruct (Z.leb_spec rb (i + a)); [|reflexivity].
    destruct (Z.ltb_spec (i + a) (rb + H0)); [|reflexivity].
    destruct (Z.leb_spec cb (j + b)); [|reflexivity].
    destruct (Z.ltb_spec (j + b) (cb + W)); [|reflexivity].
    exfalso. apply HP. unfold P. lia.
Qed.

(** X7: max pooling, channels-last, does not see the padding.  If
    [-Infinity > s] is false for every [s] (as it is for JavaScript
    numbers) and no derived size is negative, the output has the derived
    shape and every cell of it is the running maximum of the values of its
    window that come from the input itself. *)
Theorem call_max_genuine fuel x this h t (H0 W C kh kw sh sw : Z) :
  (forall s, ngt neg_inf s = false) ->
  poolingFunc this = "max"%string -> dimOrdering this <> "th"%string ->
  poolSize this = (kh, kw) -> strides this = (sh, sw) ->
  objs h !! x = Some t -> nd_shape t = (H0, W, C) ->
  (nd_data t < length (bufs h))%nat ->
  0 < H0 -> 0 < W -> 0 <= C -> 0 < kh -> 0 < kw -> 0 < sh -> 0 < sw ->
  borderMode this = "same"%string \/ (kh <= H0 + sh /\ kw <= W + sw) ->
  Z.max H0 W < Z.of_nat fuel ->
  let same := String.eqb (borderMode this) "same" in
  let outH := if same then (H0 + sh - 1) / sh else (H0 - kh + sh) / sh in
  let outW := if same then (W + sw - 1) / sw else (W - kw + sw) / sw in
  let padH := if same then Z.max 0 ((outH - 1) * sh + kh - H0) else 0 in
  let padW := if same then Z.max 0 ((outW - 1) * sw + kw - W) else 0 in
  let rb := padH / 2 in
  let cb := padW / 2 in
  exists this' h' yt,
    call fuel x this h = Return x this' h'
    /\ objs h' !! x = Some yt
    /\ nd_shape yt = (outH, outW, C)
    /\ inputPadding this' = Some (rb, padH - rb, cb, padW - cb)
    /\ forall r q c,
         0 <= r < outH -> 0 <= q < outW -> 0 <= c < C ->
         nd_get h' yt r q c
         = nsup (genuine_window h t rb cb kh kw (r * sh) (q * sw) c).
Proof.
  intros Hlaw Hmax Hth Hp Hs Hx Ht Hd HH HW HC Hkh Hkw Hsh Hsw Hgeom Hfuel
    same outH outW padH padW rb cb.
  apply String.eqb_neq in Hth.
  destruct (call_cells fuel x this h t H0 W C kh kw sh sw)
    as (h' & yt & Hret & Hx' & Hshape & _ & _ & _ & _ & _ & Hcell);
    try assumption; [left; exact Hmax|].
  eexists _, h', yt.
  split; [exact Hret|]. split; [exact Hx'|]. split; [exact Hshape|].
  split; [reflexivity|].
  intros r q c Hr Hq Hc. rewrite (Hcell r q c Hr Hq Hc).
  unfold cell_value. rewrite Hp, Hmax. simpl String.eqb. cbv iota.
  unfold nsup, padded_window, genuine_window. rewrite Ht.
  destruct (padded_window_split h t neg_inf H0 W C rb cb kh kw
              (r * sh) (q * sw) c Ht) as [Hin Hout].
  apply nsup_skip_fill; [exact Hlaw| |].
  - intros p _. apply Hin.
  - intros p _. apply Hout.
Qed.

Lemma length_filter_interval (lo hi i : Z) (n : nat)
    `{!forall a : Z, Decision (lo <= i + a < hi)} :
  Z.of_nat (length (filter (fun a => lo <= i + a < hi) (seqZ 0 (Z.of_nat n))))
  = Z.max 0 (Z.min (i + Z.of_nat n) hi - Z.max i lo).
Proof.
  induction n as [|n IH]; [simpl; lia|].
  rewrite seqZ_S, filter_app, length_app, Nat2Z.inj_add, IH.
  rewrite filter_cons, filter_nil.
  destruct (decide (lo <= i + (0 + Z.of_nat n) < hi)); simpl; lia.
Qed.

Lemma length_filter_pairs (P1 P2 : Z -> Prop) (P : Z * Z -> Prop)
    `{!forall a, Decision (P1 a)} `{!forall a, Decision (P2 a)}
    `{!forall p, Decision (P p)} (rows cols : list Z) :
  (forall a b, P (a, b) <-> P1 a /\ P2 b) ->
  length (filter P (a ← rows; b ← cols; [(a, b)]))
  = (length (filter P1 rows) * length (filter P2 cols))%nat.
Proof.
  intros HP.
  assert (Hinner : forall a,
             length (filter P (b ← cols; [(a, b)]))
             = if decide (P1 a) then length (filter P2 cols) else 0%nat).
  { intros a. induction cols as [|b cols IH].
    - simpl. destruct (decide (P1 a)); reflexivity.
    - rewrite bind_cons, filter_app, length_app, IH.
      rewrite (filter_cons P2 b). simpl.
      rewrite filter_cons, filter_nil.
      destruct (decide (P (a, b))) as [Hab|Hab];
        destruct (decide (P1 a)) as [Ha|Ha];
        destruct (decide (P2 b)) as [Hb|Hb]; simpl; try lia;
        rewrite HP in Hab; tauto. }
  induction rows as [|a rows IH]; [reflexivity|].
  rewrite bind_cons, filter_app, length_app, IH, Hinner, filter_cons.
  destruct (decide (P1 a)); simpl; lia.
Qed.

(** On one axis, for a window no larger than the input: the rows not
    counted as padding are exactly the rows of the window that lie in the
    input. *)
Lemma genuine_rows_count (same : bool) (H0 kh sh r : Z) :
  0 < H0 -> 0 < kh -> 0 < sh -> kh <= H0 ->
  let outH := if same then (H0 + sh - 1) / sh else (H0 - kh + sh) / sh in
  let padH := if same then Z.max 0 ((outH - 1) * sh + kh - H0) else 0 in
  0 <= r < outH ->
  kh - nbInPadding (r * sh) kh (H0 + padH) (padH / 2) (padH - padH / 2)
  = Z.max 0 (Z.min (r * sh + kh) (padH / 2 + H0) - Z.max (r * sh) (padH / 2)).
Proof.
  intros HH Hkh Hsh Hle outH padH Hr.
  destruct (nbInPadding_bound same H0 kh sh r HH Hkh Hsh Hr)
    as (_ & Hceil & Hhalf & Hhalf' & Hpad).
  fold outH padH in Hceil, Hhalf, Hhalf', Hpad.
  assert (Hfit : r * sh + kh <= H0 + padH).
  { destruct same; unfold padH, outH in *.
    - nia.
    - pose proof (Z.mul_div_le (H0 - kh + sh) sh Hsh). nia. }
  assert (0 <= r * sh) by nia.
  clearbody padH outH. unfold nbInPadding.
  destruct (Z.ltb_spec (r * sh) (padH / 2)).
  - lia.
  - destruct (Z.gtb_spec (r * sh + kh) (H0 + padH - (padH - padH / 2))); nia.
Qed.

(** X8: average pooling, channels-last, with a window no larger than the
    input is the mean of the genuine values.  If adding zero to zero or to
    a sum changes nothing (as for JavaScript numbers), the output has the
    derived shape and every cell of it is the sum of the values of its
    window that come from the input itself, divided by their number, which
    is at least 1. *)
Theorem call_average_genuine fuel x this h t (H0 W C kh kw sh sw : Z) :
  nadd zero zero = zero ->
  (forall s v, nadd (nadd s v) zero = nadd s v) ->
  poolingFunc this = "average"%string -> dimOrdering this <> "th"%string ->
  poolSize this = (kh, kw) -> strides this = (sh, sw) ->
  objs h !! x = Some t -> nd_shape t = (H0, W, C) ->
  (nd_data t < length (bufs h))%nat ->
  0 < H0 -> 0 < W -> 0 <= C -> 0 < kh -> 0 < kw -> 0 < sh -> 0 < sw ->
  kh <= H0 -> kw <= W ->
  Z.max H0 W < Z.of_nat fuel ->
  let same := String.eqb (borderMode this) "same" in
  let outH := if same then (H0 + sh - 1) / sh else (H0 - kh + sh) / sh in
  let outW := if same then (W + sw - 1) / sw else (W - kw + sw) / sw in
  let padH := if same then Z.max 0 ((outH - 1) * sh + kh - H0) else 0 in
  let padW := if same then Z.max 0 ((outW - 1) * sw + kw - W) else 0 in
  let rb := padH / 2 in
  let cb := padW / 2 in
  exists this' h' yt,
    call fuel x this h = Return x this' h'
    /\ objs h' !! x = Some yt
    /\ nd_shape yt = (outH, outW, C)
    /\ inputPadding this' = Some (rb, padH - rb, cb, padW - cb)
    /\ forall r q c,
         0 <= r < outH -> 0 <= q < outW -> 0 <= c < C ->
         let vals := genuine_window h t rb cb kh kw (r * sh) (q * sw) c in
         1 <= Z.of_nat (length vals)
         /\ nd_get h' yt r q c
            = ndiv (nsum vals) (of_Z (Z.of_nat (length vals))).
Proof.
  intros Hz0 Hz Havg Hth Hp Hs Hx Ht Hd HH HW HC Hkh Hkw Hsh Hsw HkH HkW Hfuel
    same outH outW padH padW rb cb.
  assert (Hgeom : borderMode this = "same"%string
                  \/ (kh <= H0 + sh /\ kw <= W + sw)) by (right; lia).
  apply String.eqb_neq in Hth.
  destruct (call_cells fuel x this h t H0 W C kh kw sh sw)
    as (h' & yt & Hret & Hx' & Hshape & _ & _ & _ & _ & _ & Hcell);
    try assumption; [right; exact Havg|].
  fold same outH outW padH padW in Hret, Hshape, Hcell. fold rb cb in Hcell.
  eexists _, h', yt.
  split; [exact Hret|]. split; [exact Hx'|]. split; [exact Hshape|].
  split; [reflexivity|].
  intros r q c Hr Hq Hc vals.
  (* the number of genuine values *)
  assert (Hcount : Z.of_nat (length vals)
                   = (kh - nbInPadding (r * sh) kh (H0 + padH) rb (padH - rb))
                     * (kw - nbInPadding (q * sw) kw (W + padW) cb
                               (padW - cb))).
  { unfold vals, genuine_window. rewrite Ht, length_fmap.
    unfold indices2.
    match goal with
    | |- context [filter ?P _] =>
        pose proof (length_filter_pairs
                      (fun a => rb <= r * sh + a < rb + H0)
                      (fun b => cb <= q * sw + b < cb + W)
                      P (seqZ 0 kh) (seqZ 0 kw)
                      ltac:(intros; reflexivity)) as Hlen
    end.
    rewrite Hlen.
    rewrite Nat2Z.inj_mul.
    rewrite <- (Z2Nat.id kh) at 1 by lia. rewrite <- (Z2Nat.id kw) at 1 by lia.
    rewrite !length_filter_interval, !Z2Nat.id by lia.
    pose proof (genuine_rows_count same H0 kh sh r HH Hkh Hsh HkH Hr) as Er.
    pose proof (genuine_rows_count same W kw sw q HW Hkw Hsw HkW Hq) as Eq.
    cbv zeta in Er, Eq. fold outH padH in Er. fold outW padW in Eq.
    fold rb in Er. fold cb in Eq.
    rewrite Er, Eq. reflexivity. }
  destruct (nbInPadding_bound same H0 kh sh r HH Hkh Hsh Hr) as (Hnr & _).
  destruct (nbInPadding_bound same W kw sw q HW Hkw Hsw Hq) as (Hnq & _).
  fold outH padH in Hnr. fold outW padW in Hnq. fold rb in Hnr. fold cb in Hnq.
  replace (H0 + rb + (padH - rb)) with (H0 + padH) in Hnr by lia.
  replace (W + cb + (padW - cb)) with (W + padW) in Hnq by lia.
  split; [rewrite Hcount; nia|].
  rewrite (Hcell r q c Hr Hq Hc), Hcount.
  unfold cell_value. rewrite Hp, Havg. simpl String.eqb. cbv iota.
  f_equal.
  unfold nsum, vals, padded_window, genuine_window. rewrite Ht.
  destruct (padded_window_split h t zero H0 W C rb cb kh kw
              (r * sh) (q * sw) c Ht) as [Hin Hout].
  apply nsum_skip_fill; [exact Hz0|exact Hz| | |left; reflexivity].
  - intros p _. apply Hin.
  - intros p _. apply Hout.
Qed.

(** ** The outcomes of [call] *)

Lemma for_loop_objs (body : Z -> Z -> heap num -> option (heap num)) :
  (forall i _i h h', body i _i h = Some h' -> objs h' = objs h) ->
  forall fuel i _i bound step h h',
    for_loop fuel i _i bound step body h = Some h' -> objs h' = objs h.
Proof.
  intros Hb. induction fuel as [|n IH]; intros i _i bound step h h' Hrun;
    [discriminate|].
  simpl in Hrun. destruct (i <=? bound); [|congruence].
  destruct (body i _i h) as [h1|] eqn:E; [|discriminate].
  rewrite (IH _ _ _ _ _ _ Hrun). eauto.
Qed.

Lemma objs_pool_window this xt yt pt a b i _i j _j h :
  objs (pool_window this xt yt pt a b i _i j _j h) = objs h.
Proof.
  unfold pool_window.
  destruct (nd_shape xt) as [[? ?] ?]. destruct (poolSize this).
  rewrite objs_foldl_nd_set.
  - apply objs_ops_assign.
  - intros h' c. repeat case_match; reflexivity.
Qed.

(** The loop nest creates no tensor object and reassigns none. *)
Lemma pool_loops_objs fuel this xt yt pt h h' :
  pool_loops fuel this xt yt pt h = Some h' -> objs h' = objs h.
Proof.
  unfold pool_loops.
  destruct (nd_shape xt) as [[? ?] ?]. destruct (poolSize this).
  destruct (strides this).
  destruct (default (0, 0, 0, 0) (inputPadding this)) as [[[? ?] ?] ?].
  apply for_loop_objs. intros i _i h1 h2. apply for_loop_objs.
  intros j _j h3 h4 [= <-]. apply objs_pool_window.
Qed.

Lemma bind_get_this {T B} (k : T -> M (num := num) T B) (l : T) h :
  bind get_this k l h = k l l h.
Proof. reflexivity. Qed.

(** [new Tensor([], shape)] either raises its [RangeError] at once or adds
    one typed array and one tensor object. *)
Lemma new_Tensor_cases {T} (shape : Z * Z * Z) (l : T) h :
  new_Tensor shape l h = Throw (RangeError "Invalid typed array length") l h
  \/ exists b t,
       new_Tensor shape l h
       = Return (length (objs h)) l (Heap (bufs h ++ [b]) (objs h ++ [t])).
Proof.
  destruct shape as [[d0 d1] d2]. unfold new_Tensor.
  destruct (d0 * d1 * d2 <? 0); [left|right; eexists _, _]; reflexivity.
Qed.

(** [_padInput] in ['same'] mode, whatever the sizes: the [RangeError] of
    the padded tensor, before anything has changed, or a new tensor for
    [x]. *)
Lemma _padInput_same_cases x this h t (rb ra cb ca : Z) :
  borderMode this = "same"%string ->
  inputPadding this = Some (rb, ra, cb, ca) ->
  objs h !! x = Some t ->
  _padInput x this h = Throw (RangeError "Invalid typed array length") this h
  \/ exists bs _xt,
       _padInput x this h
       = Return x this (Heap bs (<[x := _xt]> (objs h ++ [_xt]))).
Proof.
  intros Hb Hp Hx.
  set (Q := fun r : outcome num _Pooling2D oref =>
              r = Throw (RangeError "Invalid typed array length") this h
              \/ exists bs _xt,
                   r = Return x this (Heap bs (<[x := _xt]> (objs h ++ [_xt])))).
  change (Q (_padInput x this h)).
  destruct (nd_shape t) as [[H0 W] C] eqn:Ht.
  unfold _padInput, bind at 1, get_this. rewrite Hb. simpl.
  unfold bind at 1, tensor_of at 1. rewrite Hx, Ht, Hp.
  unfold bind at 1.
  destruct (new_Tensor_cases (H0 + rb + ra, W + cb + ca, C) this h)
    as [Hn | (b & _xt & Hn)]; rewrite Hn; [left; reflexivity|].
  unfold bind at 1, tensor_of. simpl objs.
  rewrite list_lookup_middle by reflexivity.
  set (h0 := Heap (bufs h ++ [b]) (objs h ++ [_xt])).
  set (h1 := if String.eqb (poolingFunc this) "max"
             then ops_assigns _xt neg_inf h0 else h0).
  set (h2 := ops_assign (nd_lo (nd_hi _xt (H0 + rb) (W + cb) C) rb cb 0) t h1).
  assert (Hobjs : objs h2 = objs h ++ [_xt]).
  { unfold h2. rewrite objs_ops_assign. unfold h1.
    destruct (String.eqb (poolingFunc this) "max");
      [rewrite objs_ops_assigns|]; reflexivity. }
  assert (Hx2 : objs h2 !! x = Some t).
  { rewrite Hobjs. by apply lookup_app_l_Some. }
  right. exists (bufs h2), _xt. rewrite <- Hobjs.
  unfold bind, modify_heap, set_tensor, ret.
  destruct (String.eqb (poolingFunc this) "max") eqn:Emax; simpl;
    fold h0; unfold h2, h1 in Hx2 |- *; rewrite Hx2; reflexivity.
Qed.

(** [_calcOutputShape] then [_padInput] on a tensor object, whatever the
    sizes: the layer gets its two derived fields; then either the padded
    tensor cannot be allocated, or [x] is still a tensor object. *)
Lemma calc_pad_objs x this h t :
  objs h !! x = Some t ->
  exists shape pad,
    (_calcOutputShape x ;; _padInput x) this h
    = Throw (RangeError "Invalid typed array length")
        (set_outputShape_inputPadding this shape pad) h
    \/ exists h1 xt,
         (_calcOutputShape x ;; _padInput x) this h
         = Return x (set_outputShape_inputPadding this shape pad) h1
         /\ objs h1 !! x = Some xt
         /\ (forall y t', y <> x -> objs h !! y = Some t' ->
                          objs h1 !! y = Some t').
Proof.
  intros Hx.
  destruct (nd_shape t) as [[H0 W] C] eqn:Ht.
  destruct (poolSize this) as [kh kw] eqn:Hp.
  destruct (strides this) as [sh sw] eqn:Hs.
  pose proof (_calcOutputShape_run x this h t H0 W C kh kw sh sw Hx Ht Hp Hs)
    as Hcalc.
  cbv zeta in Hcalc.
  match type of Hcalc with
  | _ = Return tt ?l _ =>
      set (this1 := l) in *;
      assert (E : (_calcOutputShape x ;; _padInput x) this h
                  = _padInput x this1 h)
        by (unfold bind at 1; rewrite Hcalc; reflexivity)
  end.
  rewrite E. clear E Hcalc.
  destruct (String.eqb (borderMode this) "same") eqn:Esame; eexists _, _.
  - apply String.eqb_eq in Esame.
    destruct (_padInput_same_cases x this1 h t _ _ _ _ Esame eq_refl Hx)
      as [Hpad | (bs & _xt & Hpad)]; rewrite Hpad.
    + left. reflexivity.
    + right. eexists _, _. split; [reflexivity|].
      pose proof (lookup_lt_Some _ _ _ Hx) as Hlt.
      simpl objs. split.
      * apply list_lookup_insert_eq. rewrite length_app. lia.
      * intros y t' Hy Hyt. rewrite list_lookup_insert_ne by congruence.
        by apply lookup_app_l_Some.
  - right. exists h, t. split; [|split; [exact Hx|auto]].
    unfold _padInput, bind, get_this.
    change (borderMode this1) with (borderMode this). rewrite Esame.
    reflexivity.
Qed.

(** With a known reducer [call] has four outcomes: a [TypeError] thrown
    before anything has changed, when [x] is no tensor object; the
    [RangeError] of a tensor of negative size, thrown after the derived
    fields were assigned; no result within the fuel; or [x] itself, with
    the layer changed in its two derived fields only. *)
Lemma call_outcome fuel x this h :
  poolingFunc this = "max"%string \/ poolingFunc this = "average"%string ->
  match objs h !! x with
  | None =>
      call fuel x this h
      = Throw (TypeError "Cannot read property 'tensor'") this h
  | Some _ =>
      call fuel x this h = OutOfFuel
      \/ (exists shape pad h' yt,
            call fuel x this h
            = Return x (set_outputShape_inputPadding this shape pad) h'
            /\ objs h' !! x = Some yt
            /\ (forall y t', y <> x -> objs h !! y = Some t' ->
                             objs h' !! y = Some t'))
      \/ (exists shape pad h',
            call fuel x this h
            = Throw (RangeError "Invalid typed array length")
                (set_outputShape_inputPadding this shape pad) h'
            /\ is_Some (objs h' !! x)
            /\ (forall y t', y <> x -> objs h !! y = Some t' ->
                             objs h' !! y = Some t'))
  end.
Proof.
  intros Hf.
  assert (Hneg : negb (String.eqb (poolingFunc this) "max")
                 && negb (String.eqb (poolingFunc this) "average") = false).
  { destruct Hf as [-> | ->]; reflexivity. }
  destruct (objs h !! x) as [t0|] eqn:Hx.
  2:{ unfold call. unfold bind at 1, get_this. rewrite Hneg.
      unfold bind at 1. destruct (String.eqb (dimOrdering this) "th").
      - unfold bind, tensor_of. cbv beta. rewrite Hx. reflexivity.
      - unfold ret. unfold bind at 1.
        unfold _calcOutputShape, bind, tensor_of. cbv beta. rewrite Hx.
        reflexivity. }
  set (Q := fun r : outcome num _Pooling2D oref =>
              r = OutOfFuel
              \/ (exists shape pad h' yt,
                    r = Return x (set_outputShape_inputPadding this shape pad) h'
                    /\ objs h' !! x = Some yt
                    /\ (forall y t', y <> x -> objs h !! y = Some t' ->
                                     objs h' !! y = Some t'))
              \/ (exists shape pad h',
                    r = Throw (RangeError "Invalid typed array length")
                          (set_outputShape_inputPadding this shape pad) h'
                    /\ is_Some (objs h' !! x)
                    /\ (forall y t', y <> x -> objs h !! y = Some t' ->
                                     objs h' !! y = Some t'))).
  change (Q (call fuel x this h)).
  unfold call. unfold bind at 1, get_this. rewrite Hneg.
  set (th := String.eqb (dimOrdering this) "th").
  set (t := if th then nd_transpose t0 1 2 0 else t0).
  set (hT := if th then Heap (bufs h) (<[x := t]> (objs h)) else h).
  pose proof (lookup_lt_Some _ _ _ Hx) as Hlt.
  assert (HxT : objs hT !! x = Some t).
  { unfold hT, t. destruct th; [|exact Hx]. simpl.
    by apply list_lookup_insert_eq. }
  assert (HoT : forall y t', y <> x -> objs h !! y = Some t' ->
                             objs hT !! y = Some t').
  { unfold hT. destruct th; [|auto]. simpl. intros y t' Hy Hyt.
    rewrite list_lookup_insert_ne by congruence. exact Hyt. }
  unfold bind at 1.
  assert (Hpre : (if th
                  then t1 <- tensor_of x ;; set_tensor x (nd_transpose t1 1 2 0)
                  else ret tt) this h = Return tt this hT).
  { unfold hT, t. destruct th; [|reflexivity].
    rewrite (bind_tensor_of x t0) by assumption.
    unfold set_tensor. rewrite Hx. reflexivity. }
  rewrite Hpre. clear Hpre.
  rewrite <- bind_assoc. unfold bind at 1.
  destruct (calc_pad_objs x this hT t HxT)
    as (shape & pad & [Hrun | (h1 & xt & Hrun & Hx1 & Ho1)]); rewrite Hrun.
  { right. right. exists shape, pad, hT. split; [reflexivity|].
    split; [eauto|exact HoT]. }
  rewrite (bind_tensor_of x xt) by assumption.
  unfold bind at 1, get_this.
  cbn [outputShape inputPadding set_outputShape_inputPadding].
  destruct (nd_shape xt) as [[inputRows inputCols] C].
  change (poolSize (set_outputShape_inputPadding this shape pad))
    with (poolSize this).
  destruct (poolSize this) as [kh kw].
  pose proof (lookup_lt_Some _ _ _ Hx1) as Hlt1.
  unfold bind at 1.
  destruct (new_Tensor_cases shape
              (set_outputShape_inputPadding this shape pad) h1)
    as [Hy | (yb & yt & Hy)]; rewrite Hy.
  { right. right. exists shape, pad, h1. split; [reflexivity|].
    split; [eauto|]. intros y t' Hy' Hyt'. eauto. }
  unfold bind at 1.
  match goal with
  | |- context [new_Tensor ?sh ?l ?hh] =>
      destruct (new_Tensor_cases sh l hh) as [Hpt | (pb & pt & Hpt)];
      rewrite Hpt
  end.
  { right. right. eexists shape, pad, _. split; [reflexivity|]. simpl objs.
    split.
    - exists xt. by apply lookup_app_l_Some.
    - intros y t' Hy' Hyt'. apply lookup_app_l_Some. eauto. }
  simpl bufs. simpl objs.
  rewrite !length_app. simpl length. rewrite !Nat.add_1_r.
  set (ha := Heap ((bufs h1 ++ [yb]) ++ [pb]) ((objs h1 ++ [yt]) ++ [pt])).
  assert (Hyt : objs ha !! length (objs h1) = Some yt).
  { simpl. rewrite lookup_app_l by (rewrite length_app; simpl; lia).
    apply list_lookup_middle. reflexivity. }
  assert (Hpt' : objs ha !! S (length (objs h1)) = Some pt).
  { simpl. apply list_lookup_middle. rewrite length_app. simpl. lia. }
  rewrite (bind_tensor_of _ yt) by assumption.
  rewrite (bind_tensor_of _ pt) by assumption.
  unfold bind at 1, run_fuelled.
  destruct (pool_loops fuel _ xt yt pt ha) as [hl|] eqn:Hl; [|left; reflexivity].
  pose proof (pool_loops_objs _ _ _ _ _ _ _ Hl) as Hobjs.
  assert (Hxl : objs hl !! x = Some xt).
  { rewrite Hobjs. simpl. rewrite <- app_assoc. by apply lookup_app_l_Some. }
  assert (Hol : forall y t', y <> x -> objs h !! y = Some t' ->
                             objs hl !! y = Some t').
  { intros y t' Hy' Hyt'. rewrite Hobjs. simpl. rewrite <- app_assoc.
    apply lookup_app_l_Some. eauto. }
  pose proof (lookup_lt_Some _ _ _ Hxl) as Hltl.
  rewrite (bind_set_tensor x xt) by assumption.
  change (dimOrdering (set_outputShape_inputPadding this shape pad))
    with (dimOrdering this). fold th.
  destruct th.
  - unfold bind at 1.
    rewrite (bind_tensor_of x yt)
      by (simpl; by apply list_lookup_insert_eq).
    unfold set_tensor, ret. simpl objs. simpl bufs.
    rewrite list_lookup_insert_eq by assumption.
    rewrite list_insert_insert_eq.
    right. left. eexists _, _, _, _. split; [reflexivity|]. simpl objs. split.
    + by apply list_lookup_insert_eq.
    + intros y t' Hy' Hyt'. rewrite list_lookup_insert_ne by congruence. eauto.
  - right. left. eexists _, _, _, _. split; [reflexivity|]. simpl objs. split.
    + by apply list_lookup_insert_eq.
    + intros y t' Hy' Hyt'. rewrite list_lookup_insert_ne by congruence. eauto.
Qed.

(** X9: how [call] fails.  For positive strides, whenever it throws, it is
    in one of three ways: the configuration error, for a reducer that is
    neither ["max"] nor ["average"], with the layer and the store as they
    were; the [TypeError] of reading [x.tensor], when the reducer is known
    and [x] is no tensor object, again with nothing changed; or the
    [RangeError] of a tensor of negative size, when the reducer is known
    and [x] is a tensor object: then the layer has had its two derived
    fields assigned and is otherwise as it was, [x] is still a tensor
    object, and every other tensor object is as it was. *)
Theorem call_throw_cases fuel x this h (sh sw : Z) e this' h' :
  strides this = (sh, sw) -> 0 < sh -> 0 < sw ->
  call fuel x this h = Throw e this' h' ->
  (e = InvalidConfiguration
   /\ poolingFunc this <> "max"%string /\ poolingFunc this <> "average"%string
   /\ this' = this /\ h' = h)
  \/ (e = TypeError "Cannot read property 'tensor'"
      /\ (poolingFunc this = "max"%string \/ poolingFunc this = "average"%string)
      /\ objs h !! x = None
      /\ this' = this /\ h' = h)
  \/ (e = RangeError "Invalid typed array length"
      /\ (poolingFunc this = "max"%string \/ poolingFunc this = "average"%string)
      /\ is_Some (objs h !! x)
      /\ (exists shape pad, this' = set_outputShape_inputPadding this shape pad)
      /\ is_Some (objs h' !! x)
      /\ (forall y t', y <> x -> objs h !! y = Some t' ->
                       objs h' !! y = Some t')).
Proof.
  intros _ _ _ Hc.
  assert (Hcases : (poolingFunc this = "max"%string
                    \/ poolingFunc this = "average"%string)
                   \/ (poolingFunc this <> "max"%string
                       /\ poolingFunc this <> "average"%string)).
  { destruct (String.eqb_spec (poolingFunc this) "max"); [auto|].
    destruct (String.eqb_spec (poolingFunc this) "average"); auto. }
  destruct Hcases as [Hf | [Hm Ha]].
  - pose proof (call_outcome fuel x this h Hf) as Ho.
    destruct (objs h !! x) as [t0|] eqn:Hx.
    + destruct Ho as [Ho | [(shape & pad & h1 & yt & Ho & _)
                           | (shape & pad & h1 & Ho & Hx1 & Hothers)]];
        try congruence.
      rewrite Ho in Hc. injection Hc as <- <- <-.
      right. right. split; [reflexivity|]. split; [exact Hf|].
      split; [eauto|]. split; [eauto|]. split; assumption.
    + rewrite Ho in Hc. injection Hc as <- <- <-.
      right. left. repeat split; try reflexivity. exact Hf.
  - pose proof Hm as Em. pose proof Ha as Ea.
    apply String.eqb_neq in Em, Ea.
    unfold call, bind, get_this in Hc. rewrite Em, Ea in Hc.
    injection Hc as <- <- <-.
    left. repeat split; try reflexivity; assumption.
Qed.

(** X10: for positive strides, when [call] returns, it returns the
    reference it was given, and
    the layer is as before in every configured field; only the two derived
    fields are assigned.  [x] was and still is a tensor object, and every
    other tensor object is as it was. *)
Theorem call_return_keeps_configuration fuel x this h (sh sw : Z) v this' h' :
  strides this = (sh, sw) -> 0 < sh -> 0 < sw ->
  call fuel x this h = Return v this' h' ->
  v = x
  /\ super this' = super this
  /\ poolSize this' = poolSize this
  /\ strides this' = strides this
  /\ borderMode this' = borderMode this
  /\ dimOrdering this' = dimOrdering this
  /\ poolingFunc this' = poolingFunc this
  /\ (poolingFunc this = "max"%string \/ poolingFunc this = "average"%string)
  /\ is_Some (outputShape this') /\ is_Some (inputPadding this')
  /\ is_Some (objs h !! x) /\ is_Some (objs h' !! x)
  /\ (forall y t', y <> x -> objs h !! y = Some t' -> objs h' !! y = Some t').
Proof.
  intros _ _ _ Hc.
  assert (Hf : poolingFunc this = "max"%string
               \/ poolingFunc this = "average"%string).
  { destruct (String.eqb (poolingFunc this) "max") eqn:Em;
      [apply String.eqb_eq in Em; auto|].
    destruct (String.eqb (poolingFunc this) "average") eqn:Ea;
      [apply String.eqb_eq in Ea; auto|].
    unfold call, bind, get_this in Hc. rewrite Em, Ea in Hc. discriminate. }
  pose proof (call_outcome fuel x this h Hf) as Ho.
  destruct (objs h !! x) as [t0|]; [|congruence].
  destruct Ho as [Ho | [(shape & pad & h1 & yt & Ho & Hx' & Hothers)
                       | (shape & pad & h1 & Ho & _)]];
    try congruence.
  rewrite Ho in Hc. injection Hc as <- <- <-.
  repeat split; try reflexivity; try assumption; eauto.
Qed.

(** X11: [call] does not read the derived fields it finds: on a tensor
    object and with a known reducer, a layer whose [outputShape] and
    [inputPadding] hold any values, such as those left by an earlier call,
    gives the same outcome as the layer itself. *)
Theorem call_ignores_derived_fields fuel x this h t s p :
  poolingFunc this = "max"%string \/ poolingFunc this = "average"%string ->
  objs h !! x = Some t ->
  call fuel x (set_outputShape_inputPadding this s p) h = call fuel x this h.
Proof.
  intros Hf Hx.
  assert (Hneg : negb (String.eqb (poolingFunc this) "max")
                 && negb (String.eqb (poolingFunc this) "average") = false).
  { destruct Hf as [-> | ->]; reflexivity. }
  set (this0 := set_outputShape_inputPadding this s p).
  unfold call. rewrite !bind_get_this.
  change (poolingFunc this0) with (poolingFunc this).
  change (dimOrdering this0) with (dimOrdering this).
  rewrite Hneg.
  set (th := String.eqb (dimOrdering this) "th").
  set (t1 := if th then nd_transpose t 1 2 0 else t).
  set (hT := if th then Heap (bufs h) (<[x := t1]> (objs h)) else h).
  pose proof (lookup_lt_Some _ _ _ Hx) as Hlt.
  assert (HxT : objs hT !! x = Some t1).
  { unfold hT, t1. destruct th; [|exact Hx]. simpl.
    by apply list_lookup_insert_eq. }
  match goal with
  | |- bind ?P (fun _ => bind _ ?K2) _ _ = _ => set (K := K2); set (pre := P)
  end.
  assert (Hpre : forall l : _Pooling2D, pre l h = Return tt l hT).
  { intros l. unfold pre, hT, t1. destruct th; [|reflexivity].
    rewrite (bind_tensor_of x t) by assumption.
    unfold set_tensor. rewrite Hx. reflexivity. }
  destruct (nd_shape t1) as [[H0 W] C] eqn:Ht.
  destruct (poolSize this) as [kh kw] eqn:Hp.
  destruct (strides this) as [sh sw] eqn:Hs.
  unfold bind. rewrite !Hpre.
  rewrite (_calcOutputShape_run x this hT t1 H0 W C kh kw sh sw) by assumption.
  rewrite (_calcOutputShape_run x this0 hT t1 H0 W C kh kw sh sw) by assumption.
  reflexivity.
Qed.

(** ** A tensor of negative size *)

(** X15: outside ['same'] mode, when the derived sizes and the channel
    count have a negative product (a window that exceeds the input by more
    than a stride on one axis only), [call] throws the [RangeError] of the
    output tensor, whatever the fuel.  By then the layer has its derived
    fields assigned, and for ['th'] ordering the tensor of [x] is the
    transposed view, which is not transposed back; nothing else has
    changed. *)
Theorem call_RangeError fuel x this h t0 (H0 W C kh kw sh sw : Z) :
  poolingFunc this = "max"%string \/ poolingFunc this = "average"%string ->
  borderMode this <> "same"%string ->
  poolSize this = (kh, kw) -> strides this = (sh, sw) ->
  objs h !! x = Some t0 ->
  let th := String.eqb (dimOrdering this) "th" in
  let t := if th then nd_transpose t0 1 2 0 else t0 in
  let hT := if th then Heap (bufs h) (<[x := t]> (objs h)) else h in
  nd_shape t = (H0, W, C) ->
  0 < sh -> 0 < sw ->
  (H0 - kh + sh) / sh * ((W - kw + sw) / sw) * C < 0 ->
  call fuel x this h
  = Throw (RangeError "Invalid typed array length")
      (set_outputShape_inputPadding this
         ((H0 - kh + sh) / sh, (W - kw + sw) / sw, C) (0, 0, 0, 0))
      hT.
Proof.
  intros Hf Hb Hp Hs Hx th t hT Ht Hsh Hsw Hneg.
  apply String.eqb_neq in Hb.
  pose proof (lookup_lt_Some _ _ _ Hx) as Hlt.
  assert (HxT : objs hT !! x = Some t).
  { unfold hT, t. destruct th; [|exact Hx]. simpl.
    by apply list_lookup_insert_eq. }
  unfold call. rewrite bind_get_this.
  assert (negb (String.eqb (poolingFunc this) "max")
          && negb (String.eqb (poolingFunc this) "average") = false) as ->.
  { destruct Hf as [-> | ->]; reflexivity. }
  unfold bind at 1.
  assert (Hpre : (if String.eqb (dimOrdering this) "th"
                  then t1 <- tensor_of x ;; set_tensor x (nd_transpose t1 1 2 0)
                  else ret tt) this h = Return tt this hT).
  { unfold hT, t. fold th. destruct th; [|reflexivity].
    rewrite (bind_tensor_of x t0) by assumption.
    unfold set_tensor. rewrite Hx. reflexivity. }
  rewrite Hpre. clear Hpre.
  unfold bind at 1.
  rewrite (_calcOutputShape_run x this hT t H0 W C kh kw sh sw) by assumption.
  rewrite Hb. cbv zeta iota.
  set (this1 := set_outputShape_inputPadding this
                  ((H0 - kh + sh) / sh, (W - kw + sw) / sw, C)
                  (0 / 2, 0 - 0 / 2, 0 / 2, 0 - 0 / 2)).
  unfold bind at 1.
  assert (Hpad : _padInput x this1 hT = Return x this1 hT).
  { unfold _padInput, bind, get_this.
    change (borderMode this1) with (borderMode this). rewrite Hb. reflexivity. }
  rewrite Hpad. clear Hpad.
  rewrite (bind_tensor_of x t) by assumption.
  rewrite bind_get_this.
  change (outputShape this1)
    with (Some ((H0 - kh + sh) / sh, (W - kw + sw) / sw, C)).
  change (inputPadding this1)
    with (Some (0 / 2, 0 - 0 / 2, 0 / 2, 0 - 0 / 2)).
  cbv iota beta. rewrite Ht.
  change (poolSize this1) with (poolSize this). rewrite Hp.
  unfold bind at 1. rewrite new_Tensor_negative by assumption.
  reflexivity.
Qed.

(** ** The base layer's GPU switch *)

(** X12: [toggleGpu] fails in one way only: with a [ReferenceError] and
    nothing changed, exactly when weblas is not declared and the requested
    mode (the argument, or the negation of the flag when there is none) is
    on.  Otherwise it returns, touches neither the store nor any other
    field of the layer, and leaves the flag on only if weblas is declared
    and truthy. *)
Theorem toggleGpu_flag (weblas : option bool) (mode : option bool)
    (l : Layer) h :
  let newMode := match mode with
                 | None => negb (_useWeblas l)
                 | Some m => m
                 end in
  (newMode = true /\ weblas = None
   /\ toggleGpu weblas mode l h
      = Throw (ReferenceError "weblas is not defined") l h)
  \/ (~ (newMode = true /\ weblas = None)
      /\ exists l',
           toggleGpu weblas mode l h = Return tt l' h
           /\ (_useWeblas l' = true <-> newMode = true /\ weblas = Some true)
           /\ layerClass l' = layerClass l /\ name l' = name l
           /\ params l' = params l /\ weights l' = weights l).
Proof.
  unfold toggleGpu, bind, get_this, set_this, throw. cbv zeta.
  destruct (match mode with
            | Some m => m
            | None => negb (_useWeblas l)
            end) eqn:Emode; [destruct weblas as [[]|]|].
  - right. split; [intros (_ & ?); discriminate|].
    eexists. split; [reflexivity|]. simpl.
    repeat split; auto.
  - right. split; [intros (_ & ?); discriminate|].
    eexists. split; [reflexivity|]. simpl.
    repeat split; try reflexivity; try discriminate.
    intros (_ & ?). discriminate.
  - left. repeat split.
  - right. split; [intros (? & _); discriminate|].
    eexists. split; [reflexivity|]. simpl.
    repeat split; try reflexivity; try discriminate.
    intros (? & _). discriminate.
Qed.

(** X13: for a layer whose flag is on only if weblas is declared and
    truthy: where weblas is declared, toggling twice without an argument
    is a round trip; where it is not, the first toggle already fails with
    a [ReferenceError] and changes nothing. *)
Theorem toggleGpu_twice (weblas : option bool) (l : Layer) h :
  (_useWeblas l = true -> weblas = Some true) ->
  match weblas with
  | Some _ =>
      (toggleGpu weblas None ;; toggleGpu weblas None) l h = Return tt l h
  | None =>
      toggleGpu weblas None l h
      = Throw (ReferenceError "weblas is not defined") l h
  end.
Proof.
  intros Hinv. unfold toggleGpu, bind, get_this, set_this, throw.
  destruct l as [lc nm ps ws u]. simpl in *.
  destruct u, weblas as [[]|]; simpl; try reflexivity;
    discriminate (Hinv eq_refl).
Qed.

(** ** Default strides *)

(** X14: a layer built without [strides], or with [strides: null], steps by
    its window.  Outside ['same'] mode its output then has
    [floor(H / kh)] by [floor(W / kw)] cells and nothing is padded. *)
Theorem default_strides_tile (weblas : bool) (attrs : Attrs) x h t
    (H0 W C kh kw : Z) :
  attr_strides attrs = None \/ attr_strides attrs = Some None ->
  attr_borderMode attrs <> Some "same"%string ->
  poolSize (_Pooling2D_constructor weblas attrs) = (kh, kw) ->
  0 < kh -> 0 < kw ->
  objs h !! x = Some t -> nd_shape t = (H0, W, C) ->
  strides (_Pooling2D_constructor weblas attrs) = (kh, kw)
  /\ exists this1,
       _calcOutputShape x (_Pooling2D_constructor weblas attrs) h
       = Return tt this1 h
       /\ outputShape this1 = Some (H0 / kh, W / kw, C)
       /\ inputPadding this1 = Some (0, 0, 0, 0).
Proof.
  intros Hst Hb Hp Hkh Hkw Hx Ht.
  assert (Hs : strides (_Pooling2D_constructor weblas attrs) = (kh, kw)).
  { rewrite <- Hp. unfold _Pooling2D_constructor. simpl.
    destruct Hst as [-> | ->]; reflexivity. }
  split; [exact Hs|].
  rewrite (_calcOutputShape_run x _ h t H0 W C kh kw kh kw) by assumption.
  assert (Hmode : String.eqb (borderMode (_Pooling2D_constructor weblas attrs))
                             "same" = false).
  { apply String.eqb_neq. unfold _Pooling2D_constructor. simpl.
    destruct (attr_borderMode attrs) as [m|]; simpl; [congruence|discriminate]. }
  rewrite Hmode. cbv zeta iota.
  eexists. split; [reflexivity|]. simpl.
  replace (H0 - kh + kh) with H0 by lia. replace (W - kw + kw) with W by lia.
  split; reflexivity.
Qed.

End Cells.

(** ** Concrete runs of the further properties *)

(** The laws of addition and comparison that the theorems on genuine values
    assume hold for the extended rationals. *)
Lemma xadd_zero_r (s v : xnum) : xadd (xadd s v) (Fin 0) = xadd s v.
Proof.
  destruct s, v; try reflexivity. simpl. f_equal.
  apply Qred_complete. rewrite Qplus_0_r. apply Qred_correct.
Qed.

Lemma xgt_neg_inf (s : xnum) : xgt NegInf s = false.
Proof. destruct s; reflexivity. Qed.

(** X1 on the 5 x 5 ramp, window 2 x 2, stride 2, ['same'] mode: a 3 x 3
    output, one row and one column of padding, after. *)
Lemma call_max_cells_witness :
  exists this' h' yt,
    call 6 0%nat (pooling_layer (2, 2) (2, 2) "same") ramp_input
    = Return 0%nat this' h'
    /\ objs h' !! 0%nat = Some yt
    /\ nd_shape yt = (3, 3, 1)
    /\ outputShape this' = Some (3, 3, 1)
    /\ inputPadding this' = Some (0, 1, 0, 1)
    /\ forall r q c,
         0 <= r < 3 -> 0 <= q < 3 -> 0 <= c < 1 ->
         nd_get h' yt r q c
         = nsup (padded_window ramp_input ramp_view neg_inf 0 0 2 2
                   (r * 2) (q * 2) c).
Proof.
  apply (call_max_cells (num := xnum) 6 0%nat
           (pooling_layer (2, 2) (2, 2) "same") ramp_input ramp_view
           5 5 1 2 2 2 2);
    first [reflexivity | lia | discriminate | (left; reflexivity)
          | (vm_compute; lia)].
Defined.

(** X2 on the same input, average pooling. *)
Lemma call_average_cells_witness :
  exists this' h' yt,
    call 6 0%nat (average_layer (2, 2) (2, 2) "same") ramp_input
    = Return 0%nat this' h'
    /\ objs h' !! 0%nat = Some yt
    /\ nd_shape yt = (3, 3, 1)
    /\ outputShape this' = Some (3, 3, 1)
    /\ inputPadding this' = Some (0, 1, 0, 1)
    /\ forall r q c,
         0 <= r < 3 -> 0 <= q < 3 -> 0 <= c < 1 ->
         nd_get h' yt r q c
         = ndiv (nsum (padded_window ramp_input ramp_view zero 0 0 2 2
                         (r * 2) (q * 2) c))
                (of_Z ((2 - nbInPadding (r * 2) 2 6 0 1)
                       * (2 - nbInPadding (q * 2) 2 6 0 1))).
Proof.
  apply (call_average_cells (num := xnum) 6 0%nat
           (average_layer (2, 2) (2, 2) "same") ramp_input ramp_view
           5 5 1 2 2 2 2);
    first [reflexivity | lia | discriminate | (left; reflexivity)
          | (vm_compute; lia)].
Defined.

(** X3 on the same input, ['valid'] mode: a 2 x 2 output. *)
Lemma call_valid_cells_witness :
  exists this' h' yt,
    call 6 0%nat (pooling_layer (2, 2) (2, 2) "valid") ramp_input
    = Return 0%nat this' h'
    /\ objs h' !! 0%nat = Some yt
    /\ nd_shape yt = (2, 2, 1)
    /\ inputPadding this' = Some (0, 0, 0, 0)
    /\ nd_get h' yt 1 1 0
       = nsup ((fun '(a, b) => nd_get ramp_input ramp_view (2 + a) (2 + b) 0)
                 <$> indices2 (2, 2)).
Proof.
  destruct (call_valid_cells (num := xnum) 6 0%nat
              (pooling_layer (2, 2) (2, 2) "valid") ramp_input ramp_view
              5 5 1 2 2 2 2)
    as (this' & h' & yt & Hret & Hx & Hshape & Hpad & Hcell);
    [discriminate | left; reflexivity | discriminate | reflexivity
     | reflexivity | reflexivity | reflexivity | vm_compute; lia
     | lia | lia | lia | lia | lia | lia | lia | lia | lia | lia |].
  exists this', h', yt.
  split; [exact Hret|]. split; [exact Hx|]. split; [exact Hshape|].
  split; [exact Hpad|].
  destruct (Hcell 1 1 0) as (_ & _ & Hmax & _);
    [vm_compute; split; [discriminate|reflexivity] ..|].
  exact (Hmax eq_refl).
Defined.

(** X4 on the same input. *)
Lemma call_frame_witness :
  exists this' h' yt,
    call 6 0%nat (pooling_layer (2, 2) (2, 2) "same") ramp_input
    = Return 0%nat this' h'
    /\ objs h' !! 0%nat = Some yt
    /\ (length (bufs ramp_input) <= nd_data yt)%nat
    /\ nd_data yt <> nd_data ramp_view
    /\ (forall k b, bufs ramp_input !! k = Some b -> bufs h' !! k = Some b)
    /\ (forall y t', y <> 0%nat -> objs ramp_input !! y = Some t' ->
                     objs h' !! y = Some t')
    /\ (forall i j c, nd_get h' ramp_view i j c = nd_get ramp_input ramp_view i j c).
Proof.
  apply (call_frame (num := xnum) 6 0%nat
           (pooling_layer (2, 2) (2, 2) "same") ramp_input ramp_view
           5 5 1 2 2 2 2);
    first [reflexivity | lia | discriminate | (left; reflexivity)
          | (vm_compute; lia)].
Defined.

(** X5 on the same input. *)
Lemma effective_cells_positive_witness :
  exists this1 outH outW rb ra cb ca,
    _calcOutputShape 0%nat (average_layer (2, 2) (2, 2) "same") ramp_input
    = Return tt this1 ramp_input
    /\ outputShape this1 = Some (outH, outW, 1)
    /\ inputPadding this1 = Some (rb, ra, cb, ca)
    /\ forall r q,
         0 <= r < outH -> 0 <= q < outW ->
         let nbRowInPadding := nbInPadding (r * 2) 2 (5 + rb + ra) rb ra in
         let nbColInPadding := nbInPadding (q * 2) 2 (5 + cb + ca) cb ca in
         0 <= nbRowInPadding < 2 /\ 0 <= nbColInPadding < 2
         /\ 1 <= (2 - nbRowInPadding) * (2 - nbColInPadding) <= 2 * 2.
Proof.
  apply (effective_cells_positive (num := xnum) 0%nat
           (average_layer (2, 2) (2, 2) "same") ramp_input ramp_view
           5 5 1 2 2 2 2);
    first [reflexivity | lia].
Defined.

(** X6 on the same input: 3 rows of output, one row of padding, after. *)
Lemma same_mode_extent_witness :
  exists this1,
    _calcOutputShape 0%nat (pooling_layer (2, 2) (2, 2) "same") ramp_input
    = Return tt this1 ramp_input
    /\ outputShape this1 = Some (3, 3, 1)
    /\ inputPadding this1 = Some (0, 1, 0, 1).
Proof.
  destruct (same_mode_extent (num := xnum) 0%nat
              (pooling_layer (2, 2) (2, 2) "same") ramp_input ramp_view
              5 5 1 2 2 2 2)
    as (this1 & outH & outW & rb & ra & cb & ca & Hrun & Hout & Hpad & _);
    [reflexivity | reflexivity | reflexivity | reflexivity | reflexivity
     | lia | lia | lia | lia | lia | lia |].
  exists this1. split; [exact Hrun|].
  vm_compute in Hrun. injection Hrun as <-.
  split; reflexivity.
Defined.

(** X7 on the same input. *)
Lemma call_max_genuine_witness :
  exists this' h' yt,
    call 6 0%nat (pooling_layer (2, 2) (2, 2) "same") ramp_input
    = Return 0%nat this' h'
    /\ objs h' !! 0%nat = Some yt
    /\ nd_shape yt = (3, 3, 1)
    /\ inputPadding this' = Some (0, 1, 0, 1)
    /\ forall r q c,
         0 <= r < 3 -> 0 <= q < 3 -> 0 <= c < 1 ->
         nd_get h' yt r q c
         = nsup (genuine_window ramp_input ramp_view 0 0 2 2
                   (r * 2) (q * 2) c).
Proof.
  apply (call_max_genuine (num := xnum) 6 0%nat
           (pooling_layer (2, 2) (2, 2) "same") ramp_input ramp_view
           5 5 1 2 2 2 2);
    first [exact xgt_neg_inf | first [reflexivity | lia | discriminate | (left; reflexivity)
          | (vm_compute; lia)]].
Defined.

(** X8 on the same input, average pooling. *)
Lemma call_average_genuine_witness :
  exists this' h' yt,
    call 6 0%nat (average_layer (2, 2) (2, 2) "same") ramp_input
    = Return 0%nat this' h'
    /\ objs h' !! 0%nat = Some yt
    /\ nd_shape yt = (3, 3, 1)
    /\ inputPadding this' = Some (0, 1, 0, 1)
    /\ forall r q c,
         0 <= r < 3 -> 0 <= q < 3 -> 0 <= c < 1 ->
         let vals := genuine_window ramp_input ramp_view 0 0 2 2
                       (r * 2) (q * 2) c in
         1 <= Z.of_nat (length vals)
         /\ nd_get h' yt r q c
            = ndiv (nsum vals) (of_Z (Z.of_nat (length vals))).
Proof.
  apply (call_average_genuine (num := xnum) 6 0%nat
           (average_layer (2, 2) (2, 2) "same") ramp_input ramp_view
           5 5 1 2 2 2 2);
    first [exact xadd_zero_r | first [reflexivity | lia | discriminate | (left; reflexivity)
          | (vm_compute; lia)]].
Defined.

(** X9 on the strip, window 3 x 2, stride 1, ['valid'] mode: the derived
    sizes are -1 and 4, and the throw is the [RangeError]. *)
Lemma call_throw_cases_witness :
  call 6 0%nat (pooling_layer (3, 2) (1, 1) "valid") strip_input
  = Throw (RangeError "Invalid typed array length")
      (set_outputShape_inputPadding (pooling_layer (3, 2) (1, 1) "valid")
         (-1, 4, 1) (0, 0, 0, 0))
      strip_input
  /\ is_Some (objs strip_input !! 0%nat).
Proof.
  assert (Hc : call (num := xnum) 6 0%nat
                 (pooling_layer (3, 2) (1, 1) "valid") strip_input
               = Throw (RangeError "Invalid typed array length")
                   (set_outputShape_inputPadding
                      (pooling_layer (3, 2) (1, 1) "valid")
                      (-1, 4, 1) (0, 0, 0, 0))
                   strip_input)
    by (vm_compute; reflexivity).
  split; [exact Hc|].
  destruct (call_throw_cases (num := xnum) 6 0%nat
              (pooling_layer (3, 2) (1, 1) "valid") strip_input 1 1 _ _ _
              eq_refl ltac:(lia) ltac:(lia) Hc)
    as [(He & _) | [(He & _) | (_ & _ & Hx & _)]];
    [discriminate He | discriminate He | exact Hx].
Defined.

(** X10 on the 5 x 5 ramp. *)
Lemma call_return_keeps_configuration_witness :
  exists this' h',
    call 6 0%nat (pooling_layer (2, 2) (2, 2) "same") ramp_input
    = Return 0%nat this' h'
    /\ poolSize this' = (2, 2) /\ strides this' = (2, 2)
    /\ borderMode this' = "same"%string
    /\ is_Some (objs h' !! 0%nat).
Proof.
  destruct (call (num := xnum) 6 0%nat
              (pooling_layer (2, 2) (2, 2) "same") ramp_input)
    as [v this' h' | e this' h' |] eqn:Hc.
  - destruct (call_return_keeps_configuration (num := xnum) 6 0%nat
                (pooling_layer (2, 2) (2, 2) "same") ramp_input 2 2
                v this' h' eq_refl ltac:(lia) ltac:(lia) Hc)
      as (-> & _ & Hp & Hs & Hb & _ & _ & _ & _ & _ & _ & Hx & _).
    exists this', h'. split; [reflexivity|].
    split; [exact Hp|]. split; [exact Hs|]. split; [exact Hb|exact Hx].
  - vm_compute in Hc. discriminate Hc.
  - vm_compute in Hc. discriminate Hc.
Defined.

(** X11 on the 5 x 5 ramp, with derived fields from elsewhere. *)
Lemma call_ignores_derived_fields_witness :
  call 6 0%nat
    (set_outputShape_inputPadding (pooling_layer (2, 2) (2, 2) "same")
       (7, 7, 7) (1, 1, 1, 1))
    ramp_input
  = call 6 0%nat (pooling_layer (2, 2) (2, 2) "same") ramp_input.
Proof.
  apply (call_ignores_derived_fields (num := xnum) 6 0%nat
           (pooling_layer (2, 2) (2, 2) "same") ramp_input ramp_view
           (7, 7, 7) (1, 1, 1, 1));
    [left; reflexivity | reflexivity].
Defined.

(** X13 on a layer built with [gpu: true] where weblas is declared and
    truthy. *)
Lemma toggleGpu_twice_witness :
  (toggleGpu (Some true) None ;; toggleGpu (Some true) None)
    (Layer_constructor true (mkAttrs None true None None None None None))
    ramp_input
  = Return tt
      (Layer_constructor true (mkAttrs None true None None None None None))
      ramp_input.
Proof.
  apply (toggleGpu_twice (num := xnum) (Some true)
           (Layer_constructor true (mkAttrs None true None None None None None))
           ramp_input).
  intros _. reflexivity.
Defined.

(** X15 on the channels-first strip, window 3 x 2, stride 1, ['valid']
    mode: the tensor of [x] is left as the transposed view, of shape
    (1, 5, 1). *)
Lemma call_RangeError_witness :
  call 6 0%nat (set_dimOrdering (pooling_layer (3, 2) (1, 1) "valid") "th")
       strip_input_th
  = Throw (RangeError "Invalid typed array length")
      (set_outputShape_inputPadding
         (set_dimOrdering (pooling_layer (3, 2) (1, 1) "valid") "th")
         (-1, 4, 1) (0, 0, 0, 0))
      (Heap (bufs strip_input_th) [NdArray 0%nat (1, 5, 1) (5, 1, 5) 0]).
Proof.
  apply (call_RangeError (num := xnum) 6 0%nat
           (set_dimOrdering (pooling_layer (3, 2) (1, 1) "valid") "th")
           strip_input_th (NdArray 0%nat (1, 1, 5) (5, 5, 1) 0)
           1 5 1 3 2 1 1);
    first [reflexivity | lia | discriminate | (left; reflexivity)].
Defined.

(** X14 on the 5 x 5 ramp: window 2 x 2 and no strides give 2 x 2 cells. *)
Lemma default_strides_tile_witness :
  strides (_Pooling2D_constructor false
             (mkAttrs None false (Some (2, 2)) None None None None))
  = (2, 2)
  /\ exists this1,
       _calcOutputShape 0%nat
         (_Pooling2D_constructor false
            (mkAttrs None false (Some (2, 2)) None None None None))
         ramp_input
       = Return tt this1 ramp_input
       /\ outputShape this1 = Some (5 / 2, 5 / 2, 1)
       /\ inputPadding this1 = Some (0, 0, 0, 0).
Proof.
  apply (default_strides_tile (num := xnum) false
           (mkAttrs None false (Some (2, 2)) None None None None)
           0%nat ramp_input ramp_view 5 5 1 2 2);
    first [(left; reflexivity) | discriminate | reflexivity | lia].
Defined.
